(** * A todo-list service: in-memory repository, use-case layer, HTTP handlers

    Shallow embedding of the Go back end:
    - [domain.Todo]                       (package domain)
    - [memRepo] with Create/List/Toggle/Delete   (package memory)
    - [TodoRepo], the driven port         (package ports)
    - [TodoService]                       (package app)
    - [Server] with its three handlers    (package http)

    The repository is a Go map guarded by a lock; every method runs its whole
    body inside the critical section, so a method is modelled as one atomic
    state transformer on the map.  What a method takes from the outside world
    (the clock, the random generator, the order in which [range] walks the
    map, which Go leaves open) is passed in as an [Env] record, one per
    call. *)

From Stdlib Require Import Ascii.
From stdpp Require Import gmap strings list fin_maps sorting pretty.

Local Open Scope string_scope.
Local Open Scope list_scope.
Local Open Scope Z_scope.

(** ** package strings (the three functions the service and the handlers call)

    A Go string is a sequence of bytes, as a Rocq [string] is. *)

Module strings.

(** [s[len(prefix):]] when [s] starts with [prefix] *)
Fixpoint CutPrefix (s prefix : string) {struct prefix} : option string :=
  match prefix, s with
  | EmptyString, _ => Some s
  | String p prefix', String c s' =>
      if decide (p = c) then CutPrefix s' prefix' else None
  | String _ _, EmptyString => None
  end.

(** [strings.TrimPrefix(s, prefix)] *)
Definition TrimPrefix (s prefix : string) : string :=
  match CutPrefix s prefix with
  | Some rest => rest
  | None => s
  end.

(** [strings.Split(s, sep)] for a one-byte separator, which is how the
    handler calls it ([sep = "/"]).  The result is never empty:
    [Split("", "/")] is [[""]]. *)
Fixpoint Split (s : string) (sep : ascii) : list string :=
  match s with
  | EmptyString => [EmptyString]
  | String c s' =>
      if decide (c = sep) then EmptyString :: Split s' sep
      else match Split s' sep with
           | part :: parts => String c part :: parts
           | [] => [String c EmptyString]
           end
  end.

(** [strings.IndexByte(s, c) >= 0] *)
Fixpoint ContainsByte (s : string) (c : ascii) : bool :=
  match s with
  | EmptyString => false
  | String c' s' => if decide (c' = c) then true else ContainsByte s' c
  end.

Definition bytes (l : list nat) : string :=
  foldr (λ n acc, String (ascii_of_nat n) acc) EmptyString l.

(** The UTF-8 encodings of the code points for which [unicode.IsSpace]
    holds: tab, line feed, vertical tab, form feed, carriage return, space,
    U+0085, U+00A0, U+1680, U+2000 to U+200A, U+2028, U+2029, U+202F, U+205F
    and U+3000.  UTF-8 encodings are unique, so a string starts (ends) with a
    white-space rune exactly when it starts (ends) with one of these. *)
Definition space_runes : list string :=
  map bytes
    [ [9%nat]; [10%nat]; [11%nat]; [12%nat]; [13%nat]; [32%nat];
      [194; 133]%nat; [194; 160]%nat; [225; 154; 128]%nat;
      [226; 128; 128]%nat; [226; 128; 129]%nat; [226; 128; 130]%nat;
      [226; 128; 131]%nat; [226; 128; 132]%nat; [226; 128; 133]%nat;
      [226; 128; 134]%nat; [226; 128; 135]%nat; [226; 128; 136]%nat;
      [226; 128; 137]%nat; [226; 128; 138]%nat;
      [226; 128; 168]%nat; [226; 128; 169]%nat; [226; 128; 175]%nat;
      [226; 129; 159]%nat; [227; 128; 128]%nat ].

(** Drop one leading rune out of [runes], if there is one. *)
Fixpoint cut_rune (runes : list string) (s : string) : option string :=
  match runes with
  | [] => None
  | r :: runes' =>
      match CutPrefix s r with
      | Some rest => Some rest
      | None => cut_rune runes' s
      end
  end.

(** Drop leading runes of [runes] for as long as there is one; [n] bounds the
    number of runes dropped and [String.length s] is always enough. *)
Fixpoint trim_left (n : nat) (runes : list string) (s : string) : string :=
  match n with
  | O => s
  | S n' =>
      match cut_rune runes s with
      | Some rest => trim_left n' runes rest
      | None => s
      end
  end.

Definition TrimLeftSpace (s : string) : string :=
  trim_left (String.length s) space_runes s.

(** Trailing runes are the leading runes of the reversed string, spelled
    backwards. *)
Definition TrimRightSpace (s : string) : string :=
  String.rev (trim_left (String.length s) (map String.rev space_runes) (String.rev s)).

(** [strings.TrimSpace(s)]: [s] without leading and trailing white space,
    as defined by Unicode. *)
Definition TrimSpace (s : string) : string :=
  TrimRightSpace (TrimLeftSpace s).

End strings.

(** ** package domain *)

(** [time.Time] instants are totally ordered by [Before]; an instant is
    modelled by its reading in nanoseconds.  The zero value is [0]. *)
Definition Time := Z.

Definition Before (t u : Time) : bool := t <? u.

Record Todo := mkTodo {
  ID : string;
  Title : string;
  Done : bool;
  CreatedAt : Time;
  UpdatedAt : Time
}.

Global Instance Todo_eq_dec : EqDecision Todo.
Proof. solve_decision. Defined.

(** [domain.Todo{}] *)
Definition zeroTodo : Todo := mkTodo "" "" false 0 0.

(** Go's [error] values built with [errors.New]; [None] is [nil]. *)
Definition error := string.

(** ** The outside world seen by one repository call *)

Record Env := mkEnv {
  (** [time.Now().Unix()], the first clock read of Create *)
  unix_now : Z;
  (** [rand.Intn(10000)] *)
  rand_intn : Z;
  (** [time.Now()], the clock read that stamps a record *)
  time_now : Time;
  (** the order in which [for _, t := range m.data] walks the map: each
      number picks the next entry among those not visited yet *)
  range_order : list nat
}.

(** ** package memory *)

Module memory.

Record memRepo := mkRepo { data : gmap string Todo }.

Definition New : memRepo := mkRepo ∅.

(** [fmt.Sprintf("%d-%d", timestamp, random)] *)
Definition Sprintf_d_d (timestamp random : Z) : string :=
  pretty timestamp +:+ "-" +:+ pretty random.

Definition Create (e : Env) (m : memRepo) (title : string)
  : memRepo * (Todo * option error) :=
  let timestamp := unix_now e in
  let random := rand_intn e in
  let id := Sprintf_d_d timestamp random in
  let now := time_now e in
  let t := mkTodo id title false now now in
  (mkRepo (<[id := t]> (data m)), (t, None)).

(** One step of the inner loop: compare [out[j]] with [out[i]] and exchange
    them when [out[j]] was created earlier.  Both indices are in range at
    every call made by [List]. *)
Definition exchange (out : list Todo) (i j : nat) : list Todo :=
  match out !! i, out !! j with
  | Some a, Some b =>
      if Before (CreatedAt b) (CreatedAt a)
      then <[i := b]> (<[j := a]> out)
      else out
  | _, _ => out
  end.

(** [for j := i + 1; j < len(out); j++ { ... }] *)
Definition inner_loop (out : list Todo) (i : nat) : list Todo :=
  foldl (λ acc j, exchange acc i j) out (seq (S i) (length out - S i)).

(** [for i := 0; i < len(out); i++ { ... }]; exchanges keep the length. *)
Definition sort_by_CreatedAt (out : list Todo) : list Todo :=
  foldl inner_loop out (seq 0 (length out)).

(** The values held by the map, in the map's canonical order. *)
Definition values (m : memRepo) : list Todo := (map_to_list (data m)).*2.

(** Visit [n] of the [remaining] entries, the next one picked by the head of
    [order] (the first one when [order] has run out). *)
Fixpoint walk (n : nat) (order : list nat) (remaining : list Todo) : list Todo :=
  match n with
  | O => []
  | S n' =>
      let i := (hd 0 order mod length remaining)%nat in
      match remaining !! i with
      | Some t => t :: walk n' (tail order) (delete i remaining)
      | None => []
      end
  end.

(** [for _, t := range m.data { out = append(out, t) }]: every entry once,
    in the order the world picks. *)
Definition range (order : list nat) (m : memRepo) : list Todo :=
  walk (length (values m)) order (values m).

Definition List (e : Env) (m : memRepo) : list Todo * option error :=
  let out := range (range_order e) m in
  (sort_by_CreatedAt out, None).

Definition Toggle (e : Env) (m : memRepo) (id : string)
  : memRepo * (Todo * option error) :=
  match data m !! id with
  | None => (m, (zeroTodo, Some "todo not found"))
  | Some t =>
      let t1 := mkTodo (ID t) (Title t) (negb (Done t)) (CreatedAt t) (UpdatedAt t) in
      let t2 := mkTodo (ID t1) (Title t1) (Done t1) (CreatedAt t1) (time_now e) in
      (mkRepo (<[id := t2]> (data m)), (t2, None))
  end.

Definition Delete (e : Env) (m : memRepo) (id : string)
  : memRepo * option error :=
  match data m !! id with
  | None => (m, Some "todo not found")
  | Some _ => (mkRepo (delete id (data m)), None)
  end.

(** Every record is stored under its own id. *)
Definition keyed_by_ID (m : memRepo) : Prop :=
  ∀ k t, data m !! k = Some t → ID t = k.

End memory.

(** ** package ports *)

(** [ports.TodoRepo], the driven port.  A method takes the state of the
    implementation and returns the state it leaves behind. *)
Class TodoRepo (R : Type) := {
  repo_Create : Env → R → string → R * (Todo * option error);
  repo_List : Env → R → R * (list Todo * option error);
  repo_Toggle : Env → R → string → R * (Todo * option error);
  repo_Delete : Env → R → string → R * option error
}.

Global Instance memRepo_TodoRepo : TodoRepo memory.memRepo := {|
  repo_Create := memory.Create;
  repo_List := λ e m, (m, memory.List e m);
  repo_Toggle := memory.Toggle;
  repo_Delete := memory.Delete
|}.

(** ** package app *)

Module app.
Section service.
Context {R : Type} {port : TodoRepo R}.

Record TodoService := mkService { repo : R }.

Definition NewTodoService (r : R) : TodoService := mkService r.

Definition Create (e : Env) (s : TodoService) (title : string)
  : TodoService * (Todo * option error) :=
  let title := strings.TrimSpace title in
  if decide (title = "") then (s, (zeroTodo, Some "title is required"))
  else
    let '(r, res) := repo_Create e (repo s) title in
    (mkService r, res).

Definition List (e : Env) (s : TodoService)
  : TodoService * (list Todo * option error) :=
  let '(r, res) := repo_List e (repo s) in
  (mkService r, res).

Definition Toggle (e : Env) (s : TodoService) (id : string)
  : TodoService * (Todo * option error) :=
  let '(r, res) := repo_Toggle e (repo s) id in
  (mkService r, res).

Definition Delete (e : Env) (s : TodoService) (id : string)
  : TodoService * option error :=
  let '(r, res) := repo_Delete e (repo s) id in
  (mkService r, res).

End service.
Arguments TodoService R : clear implicits.
End app.

(** ** package http *)

Module http.

Record Request := mkRequest {
  Method : string;
  (** [r.URL.Path] *)
  Path : string;
  Body : string
}.

(** The values the handlers hand to [json.NewEncoder(w).Encode]. *)
Inductive JSON :=
  | JTodo (t : Todo)
  | JTodos (l : list Todo)
  | JObject (fields : list (string * string)).

(** What a handler leaves in its [http.ResponseWriter]: the header map, the
    status code and the values encoded into the body.  A fresh writer answers
    200 unless [WriteHeader] says otherwise. *)
Record ResponseWriter := mkResponseWriter {
  Header : gmap string string;
  status : Z;
  body : list JSON
}.

Definition NewRecorder : ResponseWriter := mkResponseWriter ∅ 200 [].

Definition StatusOK : Z := 200.
Definition StatusCreated : Z := 201.
Definition StatusNoContent : Z := 204.
Definition StatusBadRequest : Z := 400.
Definition StatusNotFound : Z := 404.
Definition StatusMethodNotAllowed : Z := 405.
Definition StatusInternalServerError : Z := 500.

Definition MethodGet : string := "GET".
Definition MethodPost : string := "POST".
Definition MethodDelete : string := "DELETE".

(** [w.Header().Set(key, value)] *)
Definition Header_Set (w : ResponseWriter) (key value : string) : ResponseWriter :=
  mkResponseWriter (<[key := value]> (Header w)) (status w) (body w).

Definition WriteHeader (w : ResponseWriter) (code : Z) : ResponseWriter :=
  mkResponseWriter (Header w) code (body w).

Definition Encode (w : ResponseWriter) (v : JSON) : ResponseWriter :=
  mkResponseWriter (Header w) (status w) (body w ++ [v]).

Definition writeJSON (w : ResponseWriter) (code : Z) (v : JSON) : ResponseWriter :=
  let w := Header_Set w "Content-Type" "application/json" in
  let w := WriteHeader w code in
  Encode w v.

Definition writeErr (w : ResponseWriter) (code : Z) (err : error) : ResponseWriter :=
  writeJSON w code (JObject [("error", err)]).

Section server.
Context {R : Type} {port : TodoRepo R}.

(** [json.NewDecoder(r.Body).Decode(&in)] for
    [var in struct{ Title string `json:"title"` }]: [None] when decoding
    fails, otherwise the decoded [in.Title]. *)
Variable Decode : string → option string.

Record Server := mkServer { svc : app.TodoService R }.

Definition NewServer (svc : app.TodoService R) : Server := mkServer svc.

Definition handleHealth (e : Env) (s : Server) (w : ResponseWriter) (r : Request)
  : Server * ResponseWriter :=
  (s, writeJSON w StatusOK (JObject [("status", "ok")])).

Definition handleTodos (e : Env) (s : Server) (w : ResponseWriter) (r : Request)
  : Server * ResponseWriter :=
  if decide (Method r = MethodGet) then
    let '(svc', (list, err)) := app.List e (svc s) in
    match err with
    | Some err => (mkServer svc', writeErr w StatusInternalServerError err)
    | None => (mkServer svc', writeJSON w StatusOK (JTodos list))
    end
  else if decide (Method r = MethodPost) then
    match Decode (Body r) with
    | None => (s, writeErr w StatusBadRequest "invalid JSON body")
    | Some title =>
        let '(svc', (t, err)) := app.Create e (svc s) title in
        match err with
        | Some err => (mkServer svc', writeErr w StatusBadRequest err)
        | None => (mkServer svc', writeJSON w StatusCreated (JTodo t))
        end
    end
  else
    let w := Header_Set w "Allow" "GET, POST" in
    (s, writeErr w StatusMethodNotAllowed "method not allowed").

Definition handleTodoByID (e : Env) (s : Server) (w : ResponseWriter) (r : Request)
  : Server * ResponseWriter :=
  let parts := strings.Split (strings.TrimPrefix (Path r) "/todos/") "/" in
  if bool_decide (length parts = 0%nat) || bool_decide (parts !! 0%nat = Some "") then
    (s, writeErr w StatusBadRequest "missing id")
  else
    let id := default "" (parts !! 0%nat) in
    if bool_decide (length parts = 2%nat) && bool_decide (parts !! 1%nat = Some "toggle") then
      if bool_decide (Method r ≠ MethodPost) then
        let w := Header_Set w "Allow" "POST" in
        (s, writeErr w StatusMethodNotAllowed "method not allowed")
      else
        let '(svc', (updated, err)) := app.Toggle e (svc s) id in
        match err with
        | Some err => (mkServer svc', writeErr w StatusNotFound err)
        | None => (mkServer svc', writeJSON w StatusOK (JTodo updated))
        end
    else if decide (Method r = MethodDelete) then
      let '(svc', err) := app.Delete e (svc s) id in
      match err with
      | Some err => (mkServer svc', writeErr w StatusNotFound err)
      | None => (mkServer svc', WriteHeader w StatusNoContent)
      end
    else
      let w := Header_Set w "Allow" "DELETE, POST" in
      (s, writeErr w StatusMethodNotAllowed "method not allowed").

(** [http.Handler], as a middleware sees the handler it wraps. *)
Definition Handler : Type :=
  Env → Server → ResponseWriter → Request → Server * ResponseWriter.

Definition corsMiddleware (next : Handler) : Handler := λ e s w r,
  let w := Header_Set w "Access-Control-Allow-Origin" "*" in
  let w := Header_Set w "Access-Control-Allow-Methods" "GET, POST, PUT, DELETE, OPTIONS" in
  let w := Header_Set w "Access-Control-Allow-Headers"
             "Content-Type, Authorization, X-Request-Start, X-CSRF-Token" in
  if decide (Method r = "OPTIONS") then (s, WriteHeader w StatusOK)
  else next e s w r.

End server.
Arguments Server R : clear implicits.
Arguments Handler R : clear implicits.

(** The store behind a server wired as in [main]:
    [NewServer(NewTodoService(memory.New()))]. *)
Definition store (s : Server memory.memRepo) : memory.memRepo := app.repo (svc s).

Definition serving (m : memory.memRepo) : Server memory.memRepo :=
  NewServer (app.NewTodoService m).

End http.

(** ** The exchange sort of [List], read as a recursive function

    These two functions are proof devices: [inner_loop_select] and
    [sort_by_CreatedAt_selection] show that the index loops of [memory.List]
    compute them. *)

(** One run of the inner loop, seen from slot [i]: [x] is what the slot
    holds, [rest] what follows it.  Whenever a later record was created
    earlier than the slot's, the two change places. *)
Fixpoint select (x : Todo) (rest : list Todo) : Todo * list Todo :=
  match rest with
  | [] => (x, [])
  | y :: rest' =>
      if Before (CreatedAt y) (CreatedAt x)
      then let '(x', r) := select y rest' in (x', x :: r)
      else let '(x', r) := select x rest' in (x', y :: r)
  end.

(** [n] runs of the outer loop over the part of the slice not yet fixed. *)
Fixpoint selection (n : nat) (l : list Todo) : list Todo :=
  match n, l with
  | S n', x :: rest => let '(x', r) := select x rest in x' :: selection n' r
  | _, _ => l
  end.

(** Ascending creation time. *)
Definition created_le (a b : Todo) : Prop := CreatedAt a ≤ CreatedAt b.

(** ** A small world to run the code in *)

Module sample.

Definition e_milk : Env := mkEnv 1700000000 42 1000 [].
Definition e_eggs : Env := mkEnv 1700000001 7 2000 [].

Definition t_milk : Todo := mkTodo "1700000000-42" "Buy milk" false 1000 1000.
Definition t_eggs : Todo := mkTodo "1700000001-7" "Buy eggs" false 2000 2000.

(** The store after [Create("Buy milk")], and after [Create("Buy eggs")] too. *)
Definition one : memory.memRepo := (memory.Create e_milk memory.New "Buy milk").1.
Definition two : memory.memRepo := (memory.Create e_eggs one "Buy eggs").1.

(** A world in which [range] starts with the second entry of the map. *)
Definition e_range : Env := mkEnv 1700000002 0 3000 [1%nat].

(** A later clock read, and one that has not moved since [e_milk]. *)
Definition e_later : Env := mkEnv 1700000003 0 4000 [].
Definition e_same : Env := mkEnv 1700000000 0 1000 [].

(** Two calls of Create in the same second that draw the same number. *)
Definition e_first : Env := mkEnv 1700000000 42 1000 [].
Definition e_second : Env := mkEnv 1700000000 42 1500 [].

End sample.

(** ** Histories of the store *)

(** The calls that change the map, each with the world it runs in. *)
Inductive call :=
  | CallCreate (title : string)
  | CallToggle (id : string)
  | CallDelete (id : string).

Definition step (m : memory.memRepo) (c : Env * call) : memory.memRepo :=
  match c.2 with
  | CallCreate title => (memory.Create c.1 m title).1
  | CallToggle id => (memory.Toggle c.1 m id).1
  | CallDelete id => (memory.Delete c.1 m id).1
  end.

(** The store that a sequence of calls leaves behind, starting from [New]. *)
Definition run (cs : list (Env * call)) : memory.memRepo := foldl step memory.New cs.

(** A repository whose [List] fails, to exercise the handler's 500 branch. *)
Definition brokenRepo : TodoRepo unit := {|
  repo_Create := λ _ r _, (r, (zeroTodo, Some "unavailable"));
  repo_List := λ _ r, (r, ([], Some "unavailable"));
  repo_Toggle := λ _ r _, (r, (zeroTodo, Some "unavailable"));
  repo_Delete := λ _ r _, (r, Some "unavailable")
|}.

Global Instance call_eq_dec : EqDecision call.
Proof. solve_decision. Defined.

(** The store that a sequence of calls leaves behind, starting from [m]. *)
Definition run_from (m : memory.memRepo) (cs : list (Env * call)) : memory.memRepo :=
  foldl step m cs.

(** A call that neither deletes the record under [id] nor builds [id] anew. *)
Definition spares (id : string) (c : Env * call) : Prop :=
  match c.2 with
  | CallCreate _ => memory.Sprintf_d_d (unix_now c.1) (rand_intn c.1) ≠ id
  | CallToggle _ => True
  | CallDelete id' => id' ≠ id
  end.

(** How often a history toggles [id]. *)
Definition toggles_of (id : string) (cs : list (Env * call)) : nat :=
  length (filter (λ c, c.2 = CallToggle id) cs).

(** The clock reads of a history, in the order the calls were made. *)
Definition clock_reads (cs : list (Env * call)) : list Time :=
  map (λ c, time_now c.1) cs.

(** The same calls made through the use-case layer, as the handlers make
    them. *)
Definition serve_step (s : app.TodoService memory.memRepo) (c : Env * call)
  : app.TodoService memory.memRepo :=
  match c.2 with
  | CallCreate title => (app.Create c.1 s title).1
  | CallToggle id => (app.Toggle c.1 s id).1
  | CallDelete id => (app.Delete c.1 s id).1
  end.

Definition serve_run (cs : list (Env * call)) : app.TodoService memory.memRepo :=
  foldl serve_step (app.NewTodoService memory.New) cs.

(** Decimal digits, and the bytes an id is made of: digits and dashes. *)
Definition is_digit (c : ascii) : bool :=
  bool_decide (c ∈ ["0"; "1"; "2"; "3"; "4"; "5"; "6"; "7"; "8"; "9"]%char).

Fixpoint all_bytes (P : ascii → bool) (s : string) : bool :=
  match s with
  | EmptyString => true
  | String c s' => P c && all_bytes P s'
  end.

Definition is_id_byte (c : ascii) : bool := is_digit c || bool_decide (c = "-"%char).

(** A history of [Create] calls only, from the worlds and titles of the
    calls. *)
Definition creates (es : list (Env * string)) : list (Env * call) :=
  map (λ et, (et.1, CallCreate et.2)) es.

(** The second and the draw an id is built from. *)
Definition id_pair (e : Env) : Z * Z := (unix_now e, rand_intn e).

(** ** The browser side: [http-client.ts], [interceptors.ts], [todo-api.ts]

    The client runs one request at a time through three chains of
    interceptors.  What the page shows hangs on three stores ([requestCount],
    [isLoading], [globalError]); with the console and the toasts they make up
    the state [UI] that the interceptors work on.  A promise that rejects is a
    thrown value; waiting (the retry pause, the request timeout) is not
    modelled beyond its outcome. *)

Module frontend.

(** What [response.data] and [error.data] can hold. *)
Inductive Data :=
  | DJson (v : http.JSON)
  | DText (s : string)
  | DBlob
  (** the [Error] object of a failed fetch *)
  | DErrorObject (msg : string).

Record HttpError := mkHttpError {
  message : string;
  (** [status?: number] *)
  error_status : option Z;
  (** [data?: any] *)
  error_data : option Data
}.

Record HttpResponse := mkHttpResponse {
  data : Data;
  status : Z;
  statusText : string;
  headers : gmap string string
}.

(** A value that leaves a function by [throw] or by a rejected promise:
    an instance of [Error], or a plain [HttpError] object. *)
Inductive Thrown :=
  | ThrownError (msg : string)
  | ThrownHttpError (error : HttpError).

(** [RequestInit], as far as the client fills it in. *)
Record RequestInit := mkRequestInit {
  init_method : option string;
  init_headers : option (gmap string string);
  init_body : option string
}.

(** [RequestInit & { url: string }], as [request] builds it. *)
Record RequestConfig := mkRequestConfig {
  url : string;
  method : string;
  config_headers : gmap string string;
  body : option string
}.

Inductive LogEntry :=
  | LogRequest (method url : string) (body : option string)
  | LogResponse (status : Z) (statusText : string) (d : Data)
  | LogTiming (start : string) (now : Z)
  | LogRetrying
  | LogApiError (error : HttpError).

Record UI := mkUI {
  requestCount : Z;
  isLoading : bool;
  globalError : option string;
  console : list LogEntry;
  toasts : list string
}.

(** What an interceptor reads from the browser. *)
Record Browser := mkBrowser {
  (** [localStorage.getItem('auth_token')] *)
  auth_token : option string;
  (** [Date.now()] *)
  Date_now : Z;
  (** whether [window.showToast] is there *)
  showToast : bool
}.

(** What [fetch] resolves to.  Header names are in lower case, as [Headers]
    keeps them. *)
Record Response := mkResponse {
  response_status : Z;
  response_statusText : string;
  response_headers : gmap string string;
  (** [response.json()]: the value, or the message of the error it throws *)
  json : http.JSON + string;
  (** [response.text()] *)
  text : string
}.

(** [response.ok] *)
Definition ok (response : Response) : bool :=
  bool_decide (200 ≤ response_status response ≤ 299).

(** [fetch(...)]: a response, or an [Error] (no network, aborted by the
    timeout) with its message. *)
Inductive Fetched :=
  | FetchResolves (response : Response)
  | FetchRejects (msg : string).

(** [s.includes(sub)] *)
Fixpoint includes (s sub : string) : bool :=
  match strings.CutPrefix s sub with
  | Some _ => true
  | None => match s with
            | EmptyString => false
            | String _ s' => includes s' sub
            end
  end.

(** [s.startsWith(prefix)] *)
Definition startsWith (s prefix : string) : bool :=
  bool_decide (is_Some (strings.CutPrefix s prefix)).

(** A string in a condition: [undefined], [null] and [""] count as false. *)
Definition truthy (o : option string) : bool :=
  match o with
  | Some s => bool_decide (s ≠ "")
  | None => false
  end.

Definition RequestInterceptor : Type := Browser → RequestConfig → UI → RequestConfig * UI.
Definition ResponseInterceptor : Type := Browser → HttpResponse → UI → HttpResponse * UI.
(** [Promise<never> | HttpError]: the interceptor rejects, or hands an error
    on to the next one. *)
Definition ErrorInterceptor : Type := Browser → HttpError → UI → (Thrown + HttpError) * UI.

(** *** http-client.ts *)

Record HttpConfig := mkHttpConfig {
  baseURL : string;
  timeout : Z;
  default_headers : gmap string string
}.

Record HttpClient := mkHttpClient {
  config : HttpConfig;
  requestInterceptors : list RequestInterceptor;
  responseInterceptors : list ResponseInterceptor;
  errorInterceptors : list ErrorInterceptor
}.

(** [new HttpClient()] *)
Definition new_HttpClient : HttpClient :=
  mkHttpClient
    (mkHttpConfig "http://localhost:8081" 10000 {[ "Content-Type" := "application/json" ]})
    [] [] [].

Definition addRequestInterceptor (c : HttpClient) (i : RequestInterceptor) : HttpClient :=
  mkHttpClient (config c) (requestInterceptors c ++ [i]) (responseInterceptors c)
    (errorInterceptors c).

Definition addResponseInterceptor (c : HttpClient) (i : ResponseInterceptor) : HttpClient :=
  mkHttpClient (config c) (requestInterceptors c) (responseInterceptors c ++ [i])
    (errorInterceptors c).

Definition addErrorInterceptor (c : HttpClient) (i : ErrorInterceptor) : HttpClient :=
  mkHttpClient (config c) (requestInterceptors c) (responseInterceptors c)
    (errorInterceptors c ++ [i]).

Definition applyRequestInterceptors (c : HttpClient) (b : Browser)
    (cfg : RequestConfig) (ui : UI) : RequestConfig * UI :=
  foldl (λ acc interceptor, interceptor b acc.1 acc.2) (cfg, ui) (requestInterceptors c).

Definition applyResponseInterceptors (c : HttpClient) (b : Browser)
    (response : HttpResponse) (ui : UI) : HttpResponse * UI :=
  foldl (λ acc interceptor, interceptor b acc.1 acc.2) (response, ui) (responseInterceptors c).

(** The loop of [applyErrorInterceptors]: an interceptor that rejects ends
    it at once with what it threw; after the last one the error is thrown. *)
Fixpoint run_error_interceptors (interceptors : list ErrorInterceptor) (b : Browser)
    (error : HttpError) (ui : UI) : Thrown * UI :=
  match interceptors with
  | [] => (ThrownHttpError error, ui)
  | interceptor :: rest =>
      match interceptor b error ui with
      | (inl thrown, ui') => (thrown, ui')
      | (inr processedError, ui') => run_error_interceptors rest b processedError ui'
      end
  end.

Definition applyErrorInterceptors (c : HttpClient) (b : Browser)
    (error : HttpError) (ui : UI) : Thrown * UI :=
  run_error_interceptors (errorInterceptors c) b error ui.

(** [parseResponse]: the data, or the message of the error thrown while
    reading it. *)
Definition parseResponse (response : Response) : Data + string :=
  let contentType := response_headers response !! "content-type" in
  if from_option (λ ct, includes ct "application/json") false contentType then
    match json response with
    | inl v => inl (DJson v)
    | inr msg => inr msg
    end
  else if from_option (λ ct, includes ct "text/") false contentType then
    inl (DText (text response))
  else inl DBlob.

(** The request as [request] hands it to the interceptors. *)
Definition requestConfig (c : HttpClient) (target : string) (options : RequestInit)
  : RequestConfig :=
  let fullUrl := if startsWith target "http" then target
                 else baseURL (config c) +:+ target in
  mkRequestConfig fullUrl
    (default "GET" (init_method options))
    (default (default_headers (config c)) (init_headers options))
    (init_body options).

(** The rest of [request], once [fetch] has come back with [fetched]. *)
Definition settle (c : HttpClient) (b' : Browser) (fetched : Fetched) (ui : UI)
  : (Thrown + HttpResponse) * UI :=
  match fetched with
  | FetchRejects msg =>
      let httpError := mkHttpError msg None (Some (DErrorObject msg)) in
      let '(thrown, ui) := applyErrorInterceptors c b' httpError ui in
      (inl thrown, ui)
  | FetchResolves response =>
      match parseResponse response with
      | inr msg =>
          let httpError := mkHttpError msg None (Some (DErrorObject msg)) in
          let '(thrown, ui) := applyErrorInterceptors c b' httpError ui in
          (inl thrown, ui)
      | inl d =>
          let responseData :=
            mkHttpResponse d (response_status response) (response_statusText response)
              (response_headers response) in
          if negb (ok response) then
            let error := mkHttpError (response_statusText response)
                           (Some (response_status response)) (Some d) in
            let '(thrown, ui) := applyErrorInterceptors c b' error ui in
            (inl thrown, ui)
          else
            let '(processed, ui) := applyResponseInterceptors c b' responseData ui in
            (inr processed, ui)
      end
  end.

(** [request]: [b] is the browser when the request leaves, [fetch] the
    network, [b'] the browser when the answer is in. *)
Definition request (c : HttpClient) (b : Browser) (fetch : RequestConfig → Fetched)
    (b' : Browser) (target : string) (options : RequestInit) (ui : UI)
  : (Thrown + HttpResponse) * UI :=
  let '(cfg, ui) := applyRequestInterceptors c b (requestConfig c target options) ui in
  settle c b' (fetch cfg) ui.

(** [{ ...options, method, body }]; [sent] is [JSON.stringify(data)] of a
    value that counts as true, or nothing. *)
Definition with_method (options : option RequestInit) (m : string) : RequestInit :=
  mkRequestInit (Some m)
    (from_option init_headers None options) (from_option init_body None options).

Definition with_method_body (options : option RequestInit) (m : string)
    (sent : option string) : RequestInit :=
  mkRequestInit (Some m) (from_option init_headers None options) sent.

Definition get c b fetch b' target options :=
  request c b fetch b' target (with_method options "GET").
Definition post c b fetch b' target sent options :=
  request c b fetch b' target (with_method_body options "POST" sent).
Definition put c b fetch b' target sent options :=
  request c b fetch b' target (with_method_body options "PUT" sent).
Definition delete c b fetch b' target options :=
  request c b fetch b' target (with_method options "DELETE").
Definition patch c b fetch b' target sent options :=
  request c b fetch b' target (with_method_body options "PATCH" sent).

(** *** interceptors.ts *)

Definition set_headers (cfg : RequestConfig) (h : gmap string string) : RequestConfig :=
  mkRequestConfig (url cfg) (method cfg) h (body cfg).

Definition loadingInterceptor : RequestInterceptor := λ b cfg ui,
  let n := requestCount ui + 1 in
  if decide (n = 1)
  then (cfg, mkUI n true None (console ui) (toasts ui))
  else (cfg, mkUI n (isLoading ui) (globalError ui) (console ui) (toasts ui)).

(** [requestCount--; if (requestCount === 0) isLoading.set(false)] *)
Definition request_done (ui : UI) : UI :=
  let n := requestCount ui - 1 in
  mkUI n (if decide (n = 0) then false else isLoading ui) (globalError ui)
    (console ui) (toasts ui).

Definition loadingResponseInterceptor : ResponseInterceptor := λ b response ui,
  (response, request_done ui).

Definition loadingErrorInterceptor : ErrorInterceptor := λ b error ui,
  (inl (ThrownHttpError error), request_done ui).

Definition log (ui : UI) (entry : LogEntry) : UI :=
  mkUI (requestCount ui) (isLoading ui) (globalError ui) (console ui ++ [entry]) (toasts ui).

(** The message [errorInterceptor] picks for an error. *)
Definition errorMessage (error : HttpError) : string :=
  match error_status error with
  | Some st =>
      if decide (st = 0) then
        if includes (message error) "fetch"
        then "Bağlantı hatası. Lütfen internet bağlantınızı kontrol edin."
        else "Bir hata oluştu"
      else if decide (st = 400) then "Geçersiz istek"
      else if decide (st = 401) then "Yetkisiz erişim"
      else if decide (st = 403) then "Erişim reddedildi"
      else if decide (st = 404) then "Kaynak bulunamadı"
      else if decide (st = 500) then "Sunucu hatası"
      else "HTTP " +:+ pretty st +:+ ": " +:+ message error
  | None =>
      if includes (message error) "fetch"
      then "Bağlantı hatası. Lütfen internet bağlantınızı kontrol edin."
      else "Bir hata oluştu"
  end.

Definition errorInterceptor : ErrorInterceptor := λ b error ui,
  let ui := log ui (LogApiError error) in
  let msg := errorMessage error in
  let ui := mkUI (requestCount ui) (isLoading ui) (Some msg) (console ui)
              (if showToast b then toasts ui ++ [msg] else toasts ui) in
  (inl (ThrownHttpError error), ui).

Definition loggingInterceptor : RequestInterceptor := λ b cfg ui,
  (cfg, log ui (LogRequest (if decide (method cfg = "") then "GET" else method cfg)
                  (url cfg) (body cfg))).

Definition loggingResponseInterceptor : ResponseInterceptor := λ b response ui,
  (response, log ui (LogResponse (status response) (statusText response) (data response))).

Definition authInterceptor : RequestInterceptor := λ b cfg ui,
  if truthy (auth_token b)
  then (set_headers cfg (<["Authorization" := "Bearer " +:+ default "" (auth_token b)]>
                           (config_headers cfg)), ui)
  else (cfg, ui).

Definition timingInterceptor : RequestInterceptor := λ b cfg ui,
  (set_headers cfg (<["X-Request-Start" := pretty (Date_now b)]> (config_headers cfg)), ui).

Definition timingResponseInterceptor : ResponseInterceptor := λ b response ui,
  let startTime := headers response !! "x-request-start" in
  if truthy startTime
  then (response, log ui (LogTiming (default "" startTime) (Date_now b)))
  else (response, ui).

Definition retryInterceptor : ErrorInterceptor := λ b error ui,
  let retry := match error_status error with
               | Some st => bool_decide (st = 0) || bool_decide (500 ≤ st)
               | None => true
               end in
  (inl (ThrownHttpError error), if retry then log ui LogRetrying else ui).

Definition contentTypeInterceptor : RequestInterceptor := λ b cfg ui,
  if truthy (body cfg) && negb (truthy (config_headers cfg !! "Content-Type"))
  then (set_headers cfg (<["Content-Type" := "application/json"]> (config_headers cfg)), ui)
  else (cfg, ui).

Definition setupDefaultInterceptors (httpClient : HttpClient) : HttpClient :=
  let c := addRequestInterceptor httpClient contentTypeInterceptor in
  let c := addRequestInterceptor c authInterceptor in
  let c := addRequestInterceptor c loggingInterceptor in
  let c := addRequestInterceptor c timingInterceptor in
  let c := addRequestInterceptor c loadingInterceptor in
  let c := addResponseInterceptor c timingResponseInterceptor in
  let c := addResponseInterceptor c loggingResponseInterceptor in
  let c := addResponseInterceptor c loadingResponseInterceptor in
  let c := addErrorInterceptor c loadingErrorInterceptor in
  let c := addErrorInterceptor c retryInterceptor in
  addErrorInterceptor c errorInterceptor.

(** The client of [api/index.ts]:
    [setupDefaultInterceptors(httpClient)] on the singleton. *)
Definition httpClient : HttpClient := setupDefaultInterceptors new_HttpClient.

(** *** todo-api.ts: the requests of [TodoApiService] *)

Definition basePath : string := "/todos".

(** [return response.data] *)
Definition response_data (res : (Thrown + HttpResponse) * UI) : (Thrown + Data) * UI :=
  (match res.1 with inl thrown => inl thrown | inr response => inr (data response) end, res.2).

Definition getTodos b fetch b' ui :=
  response_data (get httpClient b fetch b' basePath None ui).
Definition createTodo b fetch b' (sent : string) ui :=
  response_data (post httpClient b fetch b' basePath (Some sent) None ui).
Definition toggleTodo b fetch b' (id : string) ui :=
  response_data (post httpClient b fetch b' (basePath +:+ "/" +:+ id +:+ "/toggle") None None ui).
Definition deleteTodo b fetch b' (id : string) ui : (Thrown + unit) * UI :=
  let res := delete httpClient b fetch b' (basePath +:+ "/" +:+ id) None ui in
  (match res.1 with inl thrown => inl thrown | inr _ => inr () end, res.2).
Definition updateTodo b fetch b' (id sent : string) ui :=
  response_data (put httpClient b fetch b' (basePath +:+ "/" +:+ id) (Some sent) None ui).
Definition getTodo b fetch b' (id : string) ui :=
  response_data (get httpClient b fetch b' (basePath +:+ "/" +:+ id) None ui).

(** *** The page: how it keeps its list after an answer *)





Definition idle : UI := mkUI 0 false None [] [].

(** A network that is down and tells in its error what it was asked for:
    the method and the URL of the request. *)
Definition unplugged : RequestConfig → Fetched :=
  λ cfg, FetchRejects (method cfg +:+ " " +:+ url cfg).

(** The message of the error a call ended with, if it ended with one. *)
Definition failure {A : Type} (res : (Thrown + A) * UI) : option string :=
  match res.1 with
  | inl (ThrownHttpError error) => Some (message error)
  | inl (ThrownError msg) => Some msg
  | inr _ => None
  end.

End frontend.


Example trim_example :
  strings.TrimSpace (" " +:+ strings.bytes [9; 194; 160]%nat +:+ "Buy milk  " +:+ strings.bytes [226; 128; 137; 10]%nat)
  = "Buy milk".
Proof. vm_compute. reflexivity. Qed.

Example split_example :
  strings.Split (strings.TrimPrefix "/todos/17-3/toggle" "/todos/") "/" = ["17-3"; "toggle"].
Proof. reflexivity. Qed.

Example health_example :
  http.status (http.handleHealth (mkEnv 0 0 0 []) (http.serving memory.New) http.NewRecorder
                 (http.mkRequest "GET" "/health" "")).2 = 200.
Proof. reflexivity. Qed.

Example delete_example :
  http.status (http.handleTodoByID (mkEnv 0 0 0 []) (http.serving memory.New) http.NewRecorder
                 (http.mkRequest "DELETE" "/todos/abc/junk" "")).2 = 404.
Proof. vm_compute. reflexivity. Qed.

(** ** [memory.List]: the loops sort *)

Section sorting.
Import memory.

Lemma exchange_middle (pre mid rest : list Todo) (x y : Todo) :
  exchange (pre ++ x :: mid ++ y :: rest) (length pre) (S (length pre + length mid))
  = if Before (CreatedAt y) (CreatedAt x)
    then pre ++ y :: mid ++ x :: rest
    else pre ++ x :: mid ++ y :: rest.
Proof.
  unfold exchange.
  rewrite (list_lookup_middle pre _ x) by done.
  replace (pre ++ x :: mid ++ y :: rest) with ((pre ++ x :: mid) ++ y :: rest)
    by (by rewrite <- app_assoc).
  rewrite (list_lookup_middle (pre ++ x :: mid) _ y)
    by (rewrite length_app; simpl; lia).
  destruct (Before _ _); [|done].
  rewrite (insert_app_r_alt (pre ++ x :: mid)) by (rewrite length_app; simpl; lia).
  replace (S (length pre + length mid) - length (pre ++ x :: mid))%nat with 0%nat
    by (rewrite length_app; simpl; lia).
  simpl. rewrite <- app_assoc. simpl.
  rewrite (insert_app_r_alt pre) by lia.
  by replace (length pre - length pre)%nat with 0%nat by lia.
Qed.

Lemma inner_loop_from (rest : list Todo) : ∀ (pre mid : list Todo) (x : Todo),
  foldl (λ acc j, exchange acc (length pre) j) (pre ++ x :: mid ++ rest)
        (seq (S (length pre + length mid)) (length rest))
  = pre ++ (select x rest).1 :: mid ++ (select x rest).2.
Proof.
  induction rest as [|y rest IH]; intros pre mid x; simpl; [done|].
  rewrite exchange_middle.
  destruct (Before (CreatedAt y) (CreatedAt x)).
  - specialize (IH pre (mid ++ [x]) y).
    rewrite length_app in IH. simpl in IH.
    replace (S (length pre + (length mid + 1))) with (S (S (length pre + length mid))) in IH by lia.
    rewrite <- !app_assoc in IH. simpl in IH. rewrite IH.
    destruct (select y rest) as [x' r]. simpl. done.
  - specialize (IH pre (mid ++ [y]) x).
    rewrite length_app in IH. simpl in IH.
    replace (S (length pre + (length mid + 1))) with (S (S (length pre + length mid))) in IH by lia.
    rewrite <- !app_assoc in IH. simpl in IH. rewrite IH.
    destruct (select x rest) as [x' r]. simpl. done.
Qed.

(** The inner loop at slot [length pre] is [select]. *)
Lemma inner_loop_select (pre rest : list Todo) (x : Todo) :
  inner_loop (pre ++ x :: rest) (length pre)
  = pre ++ (select x rest).1 :: (select x rest).2.
Proof.
  unfold inner_loop.
  replace (length (pre ++ x :: rest) - S (length pre))%nat with (length rest)
    by (rewrite length_app; simpl; lia).
  pose proof (inner_loop_from rest pre [] x) as H.
  simpl in H. by replace (length pre + 0)%nat with (length pre) in H by lia.
Qed.

Lemma select_length (rest : list Todo) : ∀ x, length (select x rest).2 = length rest.
Proof.
  induction rest as [|y rest IH]; intros x; simpl; [done|].
  destruct (Before _ _).
  - specialize (IH y). destruct (select y rest). simpl in *. lia.
  - specialize (IH x). destruct (select x rest). simpl in *. lia.
Qed.

Lemma select_perm (rest : list Todo) : ∀ x,
  (select x rest).1 :: (select x rest).2 ≡ₚ x :: rest.
Proof.
  induction rest as [|y rest IH]; intros x; simpl; [done|].
  destruct (Before _ _).
  - specialize (IH y). destruct (select y rest) as [x' r]. simpl in *.
    by rewrite (Permutation_swap x x' r), IH.
  - specialize (IH x). destruct (select x rest) as [x' r]. simpl in *.
    rewrite (Permutation_swap y x' r), IH. apply Permutation_swap.
Qed.

(** What [select] leaves in the slot was created no later than what the slot
    held and than everything after it. *)
Lemma select_least (rest : list Todo) : ∀ x,
  created_le (select x rest).1 x ∧ Forall (created_le (select x rest).1) (select x rest).2.
Proof.
  unfold created_le.
  induction rest as [|y rest IH]; intros x; simpl; [split; [lia|constructor]|].
  unfold Before. destruct (Z.ltb_spec (CreatedAt y) (CreatedAt x)).
  - destruct (IH y) as [H1 H2]. destruct (select y rest) as [x' r]. simpl in *.
    split; [lia|]. constructor; [lia|done].
  - destruct (IH x) as [H1 H2]. destruct (select x rest) as [x' r]. simpl in *.
    split; [lia|]. constructor; [lia|done].
Qed.

Lemma outer_loop_from (n : nat) : ∀ (pre l : list Todo),
  length l = n →
  foldl inner_loop (pre ++ l) (seq (length pre) n) = pre ++ selection n l.
Proof.
  induction n as [|n IH]; intros pre l Hn; simpl; [done|].
  destruct l as [|x rest]; [done|]. simpl in Hn.
  rewrite inner_loop_select.
  pose proof (select_length rest x) as Hlen.
  destruct (select x rest) as [x' r]. simpl in *.
  specialize (IH (pre ++ [x']) r).
  rewrite length_app in IH. simpl in IH.
  replace (length pre + 1)%nat with (S (length pre)) in IH by lia.
  rewrite <- !app_assoc in IH. simpl in IH. apply IH. lia.
Qed.

(** The two loops of [List] are [selection]. *)
Lemma sort_by_CreatedAt_selection (out : list Todo) :
  sort_by_CreatedAt out = selection (length out) out.
Proof. unfold sort_by_CreatedAt. by apply (outer_loop_from (length out) [] out). Qed.

Lemma selection_perm (n : nat) : ∀ l, selection n l ≡ₚ l.
Proof.
  induction n as [|n IH]; intros [|x rest]; simpl; try done.
  pose proof (select_perm rest x) as H.
  destruct (select x rest) as [x' r]. simpl in *.
  by rewrite IH.
Qed.

Lemma selection_sorted (n : nat) : ∀ l,
  length l = n → StronglySorted created_le (selection n l).
Proof.
  induction n as [|n IH]; intros [|x rest] Hn; simpl in *; try done; try constructor.
  pose proof (select_least rest x) as [_ Hleast].
  pose proof (select_length rest x) as Hlen.
  destruct (select x rest) as [x' r]. simpl in *.
  constructor; [apply IH; lia|].
  by rewrite selection_perm.
Qed.

Lemma sort_by_CreatedAt_perm (out : list Todo) : sort_by_CreatedAt out ≡ₚ out.
Proof. rewrite sort_by_CreatedAt_selection. apply selection_perm. Qed.

Lemma sort_by_CreatedAt_sorted (out : list Todo) :
  StronglySorted created_le (sort_by_CreatedAt out).
Proof. rewrite sort_by_CreatedAt_selection. by apply selection_sorted. Qed.

(** [range] visits every entry of the map exactly once ... *)
Lemma walk_perm (n : nat) : ∀ (order : list nat) (l : list Todo),
  length l = n → walk n order l ≡ₚ l.
Proof.
  induction n as [|n IH]; intros order l Hn; simpl.
  - by destruct l.
  - assert (Hi : (hd 0 order mod length l < length l)%nat)
      by (apply Nat.mod_upper_bound; lia).
    destruct (lookup_lt_is_Some_2 l _ Hi) as [t Ht]. rewrite Ht.
    trans (t :: delete (hd 0 order mod length l)%nat l);
      [|symmetry; by apply delete_Permutation].
    constructor. apply IH.
    pose proof (length_delete l _ (ex_intro _ t Ht)). lia.
Qed.

Lemma range_perm (order : list nat) (m : memRepo) : range order m ≡ₚ values m.
Proof. by apply walk_perm. Qed.



(** A listing is a rearrangement of the store's records. *)
Lemma List_perm (e : Env) (m : memRepo) : (List e m).1 ≡ₚ values m.
Proof. unfold List. simpl. by rewrite sort_by_CreatedAt_perm, range_perm. Qed.

End sorting.

(** ** The map behind the repository *)

Section store.
Import memory.

Lemma elem_of_values (m : memRepo) (t : Todo) :
  t ∈ values m ↔ ∃ k, data m !! k = Some t.
Proof.
  unfold values. rewrite list_elem_of_fmap. split.
  - intros [[k t'] [-> Hin]]. exists k. by apply elem_of_map_to_list.
  - intros [k Hk]. exists (k, t). split; [done|]. by apply elem_of_map_to_list.
Qed.

Lemma values_insert (d : gmap string Todo) (k : string) (t : Todo) :
  values (mkRepo (<[k := t]> d)) ≡ₚ t :: values (mkRepo (delete k d)).
Proof.
  unfold values. simpl. rewrite <- (insert_delete_eq d).
  rewrite map_to_list_insert by apply lookup_delete_eq. done.
Qed.

Lemma values_delete (d : gmap string Todo) (k : string) (t : Todo) :
  d !! k = Some t → values (mkRepo d) ≡ₚ t :: values (mkRepo (delete k d)).
Proof.
  intros Hk. rewrite <- (values_insert d k t). by rewrite insert_id.
Qed.

Lemma keyed_by_ID_New : keyed_by_ID New.
Proof. intros k t. simpl. by rewrite lookup_empty. Qed.

Lemma keyed_by_ID_Create (e : Env) (m : memRepo) (title : string) :
  keyed_by_ID m → keyed_by_ID (Create e m title).1.
Proof.
  intros Hm k t. simpl. rewrite lookup_insert.
  case_decide; [|by apply Hm]. by intros [= <-].
Qed.

Lemma keyed_by_ID_Toggle (e : Env) (m : memRepo) (id : string) :
  keyed_by_ID m → keyed_by_ID (Toggle e m id).1.
Proof.
  intros Hm k t. unfold Toggle.
  destruct (data m !! id) as [t0|] eqn:Hid; simpl; [|by apply Hm].
  rewrite lookup_insert. case_decide; [|by apply Hm].
  intros [= <-]. simpl. subst k. by apply Hm.
Qed.

Lemma keyed_by_ID_Delete (e : Env) (m : memRepo) (id : string) :
  keyed_by_ID m → keyed_by_ID (Delete e m id).1.
Proof.
  intros Hm k t. unfold Delete.
  destruct (data m !! id) as [t0|] eqn:Hid; simpl; [|by apply Hm].
  rewrite lookup_delete. case_decide; [done|by apply Hm].
Qed.

(** In a map keyed by id, a listing holds at most one record per id: the one
    stored under it. *)
Lemma filter_ID_values (m : memRepo) (l : list Todo) (k : string) :
  keyed_by_ID m → l ≡ₚ values m →
  filter (λ x, ID x = k) l = match data m !! k with Some t => [t] | None => [] end.
Proof.
  intros Hm Hl.
  assert (Hnone : ∀ d : gmap string Todo, keyed_by_ID (mkRepo d) → d !! k = None →
            filter (λ x, ID x = k) (values (mkRepo d)) = []).
  { intros d Hd Hk.
    destruct (filter (λ x, ID x = k) (values (mkRepo d))) as [|x f] eqn:Hf; [done|].
    assert (Hx : x ∈ filter (λ x, ID x = k) (values (mkRepo d)))
      by (rewrite Hf; apply list_elem_of_here).
    apply list_elem_of_filter in Hx as [Hid Hx].
    apply elem_of_values in Hx as [k' Hk']. simpl in Hk'.
    rewrite (Hd k' x Hk') in Hid. congruence. }
  destruct m as [d]. simpl in *.
  destruct (d !! k) as [t|] eqn:Hk.
  - apply Permutation_singleton_r. rewrite Hl, (values_delete d k t Hk).
    rewrite filter_cons_True by (by apply (Hm k t)).
    rewrite Hnone; [done| |apply lookup_delete_eq].
    intros k' x. simpl. rewrite lookup_delete. case_decide; [done|apply Hm].
  - apply Permutation_nil_r. rewrite Hl. by rewrite Hnone.
Qed.

End store.

(** ** [TrimSpace] trims to the end

    The bound on the number of runes dropped is never what stops
    [trim_left]: what [TrimLeftSpace] returns starts with no white-space
    rune, and what [TrimRightSpace] returns ends with none. *)

Section trimming.
Import strings.

Lemma CutPrefix_length (prefix s rest : string) :
  CutPrefix s prefix = Some rest →
  String.length s = (String.length prefix + String.length rest)%nat.
Proof.
  revert s. induction prefix as [|p prefix IH]; intros s; simpl.
  - by intros [= ->].
  - destruct s as [|c s]; [done|]. case_decide; [|done].
    intros Hcut. simpl. by rewrite (IH s Hcut).
Qed.

Lemma cut_rune_shorter (runes : list string) (s rest : string) :
  Forall (λ r, r ≠ "") runes →
  cut_rune runes s = Some rest → (String.length rest < String.length s)%nat.
Proof.
  induction 1 as [|r runes Hr _ IH]; simpl; [done|].
  destruct (CutPrefix s r) as [rest'|] eqn:Hcut; [|done].
  intros [= ->]. apply CutPrefix_length in Hcut.
  destruct r; [done|]. simpl in Hcut. lia.
Qed.

Lemma trim_left_done (runes : list string) (n : nat) : ∀ s,
  Forall (λ r, r ≠ "") runes →
  (String.length s ≤ n)%nat →
  cut_rune runes (trim_left n runes s) = None.
Proof.
  induction n as [|n IH]; intros s Hrunes Hn; simpl.
  - destruct s; [|simpl in Hn; lia].
    destruct (cut_rune runes "") as [rest|] eqn:Hcut; [|done].
    apply cut_rune_shorter in Hcut; [simpl in Hcut; lia|done].
  - destruct (cut_rune runes s) as [rest|] eqn:Hcut; [|done].
    apply IH; [done|]. apply cut_rune_shorter in Hcut; [lia|done].
Qed.

Lemma space_runes_not_empty : Forall (λ r, r ≠ "") space_runes.
Proof. by apply (bool_decide_unpack _). Qed.

Lemma space_runes_rev_not_empty : Forall (λ r, r ≠ "") (map String.rev space_runes).
Proof. by apply (bool_decide_unpack _). Qed.

Lemma rev_app_length (s acc : string) :
  String.length (String.rev_app s acc) = (String.length s + String.length acc)%nat.
Proof.
  revert acc. induction s as [|c s IH]; intros acc; simpl; [done|].
  rewrite IH. simpl. lia.
Qed.

Lemma TrimLeftSpace_done (s : string) : cut_rune space_runes (TrimLeftSpace s) = None.
Proof. apply trim_left_done; [apply space_runes_not_empty|done]. Qed.

Lemma rev_app_rev_app (x y z : string) :
  String.rev_app (String.rev_app x y) z = String.rev_app y (x +:+ z).
Proof. revert y. induction x as [|c x IH]; intros y; simpl; [done|]. by rewrite IH. Qed.

Lemma rev_involutive (s : string) : String.rev (String.rev s) = s.
Proof.
  unfold String.rev. rewrite rev_app_rev_app. simpl.
  induction s as [|c s IH]; [done|].
  change (String c (s +:+ "") = String c s). by f_equal.
Qed.

Lemma TrimRightSpace_done (s : string) :
  cut_rune (map String.rev space_runes) (String.rev (TrimRightSpace s)) = None.
Proof.
  unfold TrimRightSpace. rewrite rev_involutive.
  apply trim_left_done; [apply space_runes_rev_not_empty|].
  unfold String.rev. rewrite rev_app_length. simpl. lia.
Qed.

End trimming.

(** ** Paths and their segments *)

Section paths.
Import strings.

Lemma CutPrefix_app (prefix s : string) : CutPrefix (prefix +:+ s) prefix = Some s.
Proof. induction prefix as [|p prefix IH]; simpl; [done|]. by rewrite decide_True. Qed.

Lemma TrimPrefix_app (prefix s : string) : TrimPrefix (prefix +:+ s) prefix = s.
Proof. unfold TrimPrefix. by rewrite CutPrefix_app. Qed.

Lemma Split_not_nil (s : string) (sep : ascii) : Split s sep ≠ [].
Proof.
  destruct s as [|c s]; simpl; [done|].
  case_decide; [done|]. by destruct (Split s sep).
Qed.

Lemma Split_no_sep (s : string) (sep : ascii) :
  ContainsByte s sep = false → Split s sep = [s].
Proof.
  induction s as [|c s IH]; simpl; [done|].
  case_decide; [done|]. intros Hs. by rewrite IH.
Qed.

Lemma Split_app_sep (a b : string) (sep : ascii) :
  ContainsByte a sep = false →
  Split (a +:+ String sep b) sep = a :: Split b sep.
Proof.
  induction a as [|c a IH]; simpl.
  - intros _. by rewrite decide_True.
  - case_decide; [done|]. intros Ha. by rewrite IH.
Qed.

Lemma Split_singleton (s x : string) (sep : ascii) : Split s sep = [x] → s = x.
Proof.
  revert x. induction s as [|c s IH]; intros x; simpl; [congruence|].
  case_decide.
  - intros [= _ H']. by apply Split_not_nil in H'.
  - destruct (Split s sep) as [|part parts] eqn:Hs; [by apply Split_not_nil in Hs|].
    intros [= <- ->]. by rewrite (IH part).
Qed.

(** [/todos/{id}] *)
Lemma parts_item (id : string) :
  ContainsByte id "/" = false →
  Split (TrimPrefix ("/todos/" +:+ id) "/todos/") "/" = [id].
Proof. intros H. by rewrite TrimPrefix_app, Split_no_sep. Qed.

(** [/todos/{id}/{suffix}] *)
Lemma parts_suffix (id suffix : string) :
  ContainsByte id "/" = false →
  Split (TrimPrefix ("/todos/" +:+ id +:+ "/" +:+ suffix) "/todos/") "/"
  = id :: Split suffix "/".
Proof. intros H. rewrite TrimPrefix_app. by apply (Split_app_sep id suffix "/"). Qed.

End paths.

(** ** The repository operations *)

Section repository.
Import memory.

Lemma sample_one_keyed : keyed_by_ID sample.one.
Proof. apply keyed_by_ID_Create, keyed_by_ID_New. Qed.

Lemma sample_two_keyed : keyed_by_ID sample.two.
Proof. apply keyed_by_ID_Create, sample_one_keyed. Qed.

(** C3.  Whatever order [range] walks the map in, [List] returns without
    error exactly the records of the store, each as often as the store holds
    it, in ascending order of [CreatedAt]; on an empty store the result is
    the empty sequence. *)
Theorem List_all_ascending (e : Env) (m : memRepo) :
  (List e m).2 = None ∧
  (List e m).1 ≡ₚ values m ∧
  (∀ t, t ∈ (List e m).1 ↔ ∃ k, data m !! k = Some t) ∧
  StronglySorted created_le (List e m).1 ∧
  (data m = ∅ → (List e m).1 = []).
Proof.
  pose proof (List_perm e m) as Hp.
  split_and!; [done|done| |apply sort_by_CreatedAt_sorted|].
  - intros t. by rewrite Hp, elem_of_values.
  - intros Hempty. apply Permutation_nil_r. rewrite Hp.
    unfold values. by rewrite Hempty, map_to_list_empty.
Qed.

Lemma List_all_ascending_witness :
  data New = ∅ ∧
  (List sample.e_later New).1 = [] ∧
  StronglySorted created_le (List sample.e_range sample.two).1.
Proof.
  split; [reflexivity|]. split.
  - apply (List_all_ascending sample.e_later New). reflexivity.
  - apply (List_all_ascending sample.e_range sample.two).
Defined.

Example List_example :
  range (range_order sample.e_range) sample.two = [sample.t_milk; sample.t_eggs] ∧
  range [] sample.two = [sample.t_eggs; sample.t_milk] ∧
  (List sample.e_range sample.two).1 = [sample.t_milk; sample.t_eggs] ∧
  (List sample.e_later sample.two).1 = [sample.t_milk; sample.t_eggs] ∧
  (List sample.e_later New).1 = [].
Proof. vm_compute. repeat split. Qed.

Lemma Delete_present (e : Env) (m : memRepo) (id : string) (t : Todo) :
  data m !! id = Some t → Delete e m id = (mkRepo (delete id (data m)), None).
Proof. intros Hid. unfold Delete. by rewrite Hid. Qed.

Lemma Delete_absent (e : Env) (m : memRepo) (id : string) :
  data m !! id = None → Delete e m id = (m, Some "todo not found").
Proof. intros Hid. unfold Delete. by rewrite Hid. Qed.

Lemma Toggle_absent (e : Env) (m : memRepo) (id : string) :
  data m !! id = None → Toggle e m id = (m, (zeroTodo, Some "todo not found")).
Proof. intros Hid. unfold Toggle. by rewrite Hid. Qed.

(** C6.  Deleting an id that is in the store succeeds and removes that
    record and no other: the records under every other id are as they were,
    the store is the old one without the deleted record, no listing of the new
    store holds a task with that id, and deleting the id again fails with
    "todo not found" and changes nothing. *)
Theorem Delete_removes_exactly (e : Env) (m : memRepo) (id : string) (t : Todo) :
  keyed_by_ID m →
  data m !! id = Some t →
  (Delete e m id).2 = None ∧
  data (Delete e m id).1 !! id = None ∧
  (∀ k, k ≠ id → data (Delete e m id).1 !! k = data m !! k) ∧
  values m ≡ₚ t :: values (Delete e m id).1 ∧
  (∀ e', (List e' (Delete e m id).1).2 = None ∧
         ∀ x, x ∈ (List e' (Delete e m id).1).1 → ID x ≠ id) ∧
  (∀ e', Delete e' (Delete e m id).1 id = ((Delete e m id).1, Some "todo not found")).
Proof.
  intros Hm Hid. rewrite (Delete_present e m id t Hid). simpl.
  split_and!.
  - done.
  - apply lookup_delete_eq.
  - intros k Hk. by apply lookup_delete_ne.
  - destruct m as [d]. by apply values_delete.
  - intros e'. split; [done|]. intros x Hx Hxid.
    pose proof (keyed_by_ID_Delete e m id Hm) as Hm'.
    rewrite (Delete_present e m id t Hid) in Hm'. simpl in Hm'.
    pose proof (filter_ID_values _ _ id Hm' (List_perm e' _)) as Hf.
    simpl in Hf. rewrite lookup_delete_eq in Hf.
    assert (Hin : x ∈ @nil Todo)
      by (rewrite <- Hf; by apply list_elem_of_filter).
    by apply not_elem_of_nil in Hin.
  - intros e'. apply Delete_absent. simpl. apply lookup_delete_eq.
Qed.

Lemma Delete_removes_exactly_witness :
  data sample.two !! "1700000000-42" = Some sample.t_milk ∧
  values (Delete sample.e_later sample.two "1700000000-42").1 = [sample.t_eggs] ∧
  (Delete sample.e_later (Delete sample.e_later sample.two "1700000000-42").1 "1700000000-42").2
    = Some "todo not found".
Proof.
  assert (Hid : data sample.two !! "1700000000-42" = Some sample.t_milk)
    by (vm_compute; reflexivity).
  split; [exact Hid|]. split; [vm_compute; reflexivity|].
  pose proof (Delete_removes_exactly sample.e_later sample.two _ _ sample_two_keyed Hid)
    as (_ & _ & _ & _ & _ & Hagain).
  rewrite (Hagain sample.e_later). reflexivity.
Defined.

(** C4, as the code has it.  Toggling an id that is in the store succeeds,
    negates [Done], stamps [UpdatedAt] with the clock read of the call and
    leaves id, title and [CreatedAt] alone; [UpdatedAt] moves strictly forward
    exactly when that clock read is later than the stored [UpdatedAt].
    Toggling the same id once more succeeds and brings [Done] back to its
    original value. *)
Theorem Toggle_flips_and_stamps (e e' : Env) (m : memRepo) (id : string) (t : Todo) :
  data m !! id = Some t →
  let r := Toggle e m id in
  let r' := Toggle e' r.1 id in
  r.2.2 = None ∧
  r.2.1 = mkTodo (ID t) (Title t) (negb (Done t)) (CreatedAt t) (time_now e) ∧
  data r.1 = <[id := r.2.1]> (data m) ∧
  (UpdatedAt t < UpdatedAt r.2.1 ↔ UpdatedAt t < time_now e) ∧
  r'.2.2 = None ∧
  Done r'.2.1 = Done t ∧
  data r'.1 !! id = Some r'.2.1.
Proof.
  intros Hid. unfold Toggle. rewrite Hid. simpl.
  rewrite lookup_insert_eq. simpl.
  rewrite negb_involutive, lookup_insert_eq. done.
Qed.

Lemma Toggle_flips_and_stamps_witness :
  data sample.one !! "1700000000-42" = Some sample.t_milk ∧
  Done (Toggle sample.e_later sample.one "1700000000-42").2.1 = true ∧
  UpdatedAt sample.t_milk < UpdatedAt (Toggle sample.e_later sample.one "1700000000-42").2.1 ∧
  Done (Toggle sample.e_later
          (Toggle sample.e_later sample.one "1700000000-42").1 "1700000000-42").2.1 = false.
Proof.
  assert (Hid : data sample.one !! "1700000000-42" = Some sample.t_milk)
    by (vm_compute; reflexivity).
  pose proof (Toggle_flips_and_stamps sample.e_later sample.e_later sample.one _ _ Hid)
    as (_ & Ht & _ & Hlt & _ & Hback & _).
  split; [exact Hid|]. split; [by rewrite Ht|]. split; [apply Hlt; reflexivity|].
  exact Hback.
Defined.

(** C4, as stated, fails: a toggle whose clock read equals the stored
    [UpdatedAt] (the clock has not moved since the record was created) flips
    [Done] but does not advance [UpdatedAt]. *)
Lemma Toggle_does_not_always_advance :
  data sample.one !! "1700000000-42" = Some sample.t_milk ∧
  (Toggle sample.e_same sample.one "1700000000-42").2.2 = None ∧
  ¬ (UpdatedAt sample.t_milk
     < UpdatedAt (Toggle sample.e_same sample.one "1700000000-42").2.1).
Proof. split; [vm_compute; reflexivity|]. split; [vm_compute; reflexivity|]. vm_compute. by intros [=]. Qed.

End repository.

(** ** The use cases over the in-memory repository *)

Section use_cases.
Import memory.

Lemma Create_blank (e : Env) (s : app.TodoService memRepo) (title : string) :
  strings.TrimSpace title = "" →
  app.Create e s title = (s, (zeroTodo, Some "title is required")).
Proof. intros Ht. unfold app.Create. by rewrite decide_True. Qed.

Lemma Create_titled (e : Env) (s : app.TodoService memRepo) (title : string) :
  strings.TrimSpace title ≠ "" →
  app.Create e s title
  = (app.mkService (Create e (app.repo s) (strings.TrimSpace title)).1,
     (Create e (app.repo s) (strings.TrimSpace title)).2).
Proof. intros Ht. unfold app.Create. by rewrite decide_False. Qed.

Lemma List_service (e : Env) (s : app.TodoService memRepo) :
  app.List e s = (s, List e (app.repo s)).
Proof. by destruct s. Qed.

(** C1.  When the trimmed title is not empty, [Create] succeeds; the task it
    returns carries the trimmed title, [Done = false] and
    [CreatedAt = UpdatedAt], and is stored under its id.  Every listing of the
    store taken afterwards succeeds and holds the new task exactly once: it is
    the only entry with its id and the only entry equal to it. *)
Theorem Create_then_List (e e' : Env) (s : app.TodoService memRepo) (title : string) :
  strings.TrimSpace title ≠ "" →
  keyed_by_ID (app.repo s) →
  let t := (app.Create e s title).2.1 in
  let l := (app.List e' (app.Create e s title).1).2 in
  (app.Create e s title).2.2 = None ∧
  Title t = strings.TrimSpace title ∧
  Done t = false ∧
  CreatedAt t = UpdatedAt t ∧
  data (app.repo (app.Create e s title).1) !! ID t = Some t ∧
  l.2 = None ∧
  filter (λ x, ID x = ID t) l.1 = [t] ∧
  filter (λ x, x = t) l.1 = [t].
Proof.
  intros Ht Hs. rewrite (Create_titled e s title Ht), List_service. simpl.
  set (id := Sprintf_d_d (unix_now e) (rand_intn e)).
  set (t := mkTodo id (strings.TrimSpace title) false (time_now e) (time_now e)).
  set (m' := mkRepo (<[id := t]> (data (app.repo s)))).
  assert (Hid : filter (λ x, ID x = id) (sort_by_CreatedAt (range (range_order e') m')) = [t]).
  { change (filter (λ x, ID x = id) (List e' m').1 = [t]).
    rewrite (filter_ID_values m' _ id).
    - simpl. by rewrite lookup_insert_eq.
    - by apply (keyed_by_ID_Create e (app.repo s) (strings.TrimSpace title)).
    - apply List_perm. }
  split_and!; try done.
  - apply lookup_insert_eq.
  - rewrite <- (list_filter_filter_l (λ x, x = t) (λ x, ID x = id)) by (by intros x ->).
    by rewrite Hid, filter_cons_True.
Qed.

Lemma Create_then_List_witness :
  strings.TrimSpace "  Buy eggs " ≠ "" ∧
  (app.Create sample.e_eggs (app.mkService sample.one) "  Buy eggs ").2.1 = sample.t_eggs ∧
  filter (λ x, x = sample.t_eggs)
    (app.List sample.e_range
       (app.Create sample.e_eggs (app.mkService sample.one) "  Buy eggs ").1).2.1
  = [sample.t_eggs].
Proof.
  assert (Ht : strings.TrimSpace "  Buy eggs " ≠ "") by (vm_compute; discriminate).
  split; [exact Ht|]. split; [vm_compute; reflexivity|].
  pose proof (Create_then_List sample.e_eggs sample.e_range (app.mkService sample.one)
                "  Buy eggs " Ht sample_one_keyed) as H.
  simpl in H. destruct H as (_ & _ & _ & _ & _ & _ & _ & Honce).
  replace sample.t_eggs
    with (app.Create sample.e_eggs (app.mkService sample.one) "  Buy eggs ").2.1
    by (vm_compute; reflexivity).
  exact Honce.
Defined.

End use_cases.

(** ** Ids *)

Section ids.
Import memory.

Lemma keyed_by_ID_step (m : memRepo) (c : Env * call) :
  keyed_by_ID m → keyed_by_ID (step m c).
Proof.
  destruct c as [e []]; unfold step; simpl;
    [apply keyed_by_ID_Create|apply keyed_by_ID_Toggle|apply keyed_by_ID_Delete].
Qed.

(** Whatever calls were made, every record sits under its own id. *)
Lemma keyed_by_ID_run (cs : list (Env * call)) : keyed_by_ID (run cs).
Proof.
  unfold run. induction cs as [|c cs IH] using rev_ind; [apply keyed_by_ID_New|].
  rewrite foldl_app. simpl. by apply keyed_by_ID_step.
Qed.

Lemma values_ids_NoDup (m : memRepo) : keyed_by_ID m → NoDup (ID <$> values m).
Proof.
  intros Hm. unfold values.
  replace (ID <$> (map_to_list (data m)).*2) with ((map_to_list (data m)).*1);
    [apply NoDup_fst_map_to_list|].
  rewrite <- list_fmap_compose. apply list_fmap_ext.
  intros i [k t] Hin. simpl. symmetry. apply Hm.
  by apply elem_of_map_to_list, list_elem_of_lookup_2 with i.
Qed.

(** No listing ever shows two tasks with the same id. *)
Lemma List_ids_NoDup (e : Env) (cs : list (Env * call)) :
  NoDup (ID <$> (List e (run cs)).1).
Proof. rewrite (List_perm e (run cs)). apply values_ids_NoDup, keyed_by_ID_run. Qed.

(** [Create] adds a record when the id it builds is free, and replaces the
    record stored under that id when it is not. *)
Lemma Create_fresh_size (e : Env) (m : memRepo) (title : string) :
  data m !! ID (Create e m title).2.1 = None →
  size (data (Create e m title).1) = S (size (data m)).
Proof. simpl. intros Hfree. by apply map_size_insert_None. Qed.

Lemma Create_taken_size (e : Env) (m : memRepo) (title : string) :
  is_Some (data m !! ID (Create e m title).2.1) →
  size (data (Create e m title).1) = size (data m).
Proof. simpl. intros Htaken. by apply map_size_insert_Some. Qed.

(** After such a collision every listing has a single entry. *)
Lemma collision_listing (e : Env) :
  let r1 := app.Create sample.e_first (app.NewTodoService New) "Buy milk" in
  let r2 := app.Create sample.e_second r1.1 "Buy eggs" in
  length (app.List e r2.1).2.1 = 1%nat.
Proof.
  intros r1 r2. rewrite List_service.
  change (length (List e (app.repo r2.1)).1 = 1%nat).
  rewrite (List_perm e (app.repo r2.1)). vm_compute. reflexivity.
Qed.

(** C7 at its failing input: two calls of [Create] that read the same second
    off the clock and draw the same random number build the same id, and the
    second record takes the place of the first.  Both calls succeed, yet the
    store holds one record and its listing has one entry. *)
Theorem Create_same_second_same_draw :
  let r1 := app.Create sample.e_first (app.NewTodoService New) "Buy milk" in
  let r2 := app.Create sample.e_second r1.1 "Buy eggs" in
  r1.2.2 = None ∧ r2.2.2 = None ∧
  ID r1.2.1 = "1700000000-42" ∧ ID r2.2.1 = "1700000000-42" ∧
  size (data (app.repo r2.1)) = 1%nat ∧
  values (app.repo r2.1) = [r2.2.1] ∧
  (app.List sample.e_range r2.1).2.1 = [r2.2.1] ∧
  Title r2.2.1 = "Buy eggs".
Proof. split_and!; vm_compute; reflexivity. Qed.

End ids.

(** ** The handlers, in front of the in-memory repository *)

Section handlers.
Import memory http.

Implicit Types (e : Env) (s : Server memRepo) (w : ResponseWriter) (r : Request).

Lemma writeJSON_status w code v : status (writeJSON w code v) = code.
Proof. done. Qed.

Lemma writeErr_status w code err : status (writeErr w code err) = code.
Proof. done. Qed.

Lemma writeErr_Allow w code err allow :
  Header (writeErr (Header_Set w "Allow" allow) code err) !! "Allow" = Some allow.
Proof.
  unfold writeErr, writeJSON, Header_Set. simpl.
  rewrite lookup_insert_ne by done. apply lookup_insert_eq.
Qed.

(** [/todos/{id}/toggle] with POST runs [Toggle] on the id. *)
Lemma handleTodoByID_toggle e s w r id :
  strings.Split (strings.TrimPrefix (Path r) "/todos/") "/" = [id; "toggle"] →
  id ≠ "" → Method r = MethodPost →
  handleTodoByID e s w r
  = (serving (Toggle e (store s) id).1,
     match (Toggle e (store s) id).2.2 with
     | Some err => writeErr w StatusNotFound err
     | None => writeJSON w StatusOK (JTodo (Toggle e (store s) id).2.1)
     end).
Proof.
  intros Hparts Hid Hm. unfold handleTodoByID. rewrite Hparts. simpl.
  rewrite (bool_decide_eq_false_2 (Some id = Some "")) by congruence.
  rewrite (bool_decide_eq_false_2 (Method r ≠ MethodPost)) by (intros H; by apply H).
  unfold app.Toggle, store. simpl.
  by destruct (Toggle e (app.repo (svc s)) id) as [m' [t [err|]]].
Qed.

(** On a toggle path every method but POST is turned away. *)
Lemma handleTodoByID_toggle_method e s w r id :
  strings.Split (strings.TrimPrefix (Path r) "/todos/") "/" = [id; "toggle"] →
  id ≠ "" → Method r ≠ MethodPost →
  handleTodoByID e s w r
  = (s, writeErr (Header_Set w "Allow" "POST") StatusMethodNotAllowed "method not allowed").
Proof.
  intros Hparts Hid Hm. unfold handleTodoByID. rewrite Hparts. simpl.
  rewrite (bool_decide_eq_false_2 (Some id = Some "")) by congruence.
  by rewrite (bool_decide_eq_true_2 (Method r ≠ MethodPost)).
Qed.

Lemma not_toggle_path (id : string) (rest : list string) :
  rest ≠ ["toggle"] →
  bool_decide (length (id :: rest) = 2%nat) && bool_decide ((id :: rest) !! 1%nat = Some "toggle")
  = false.
Proof.
  intros Hrest. apply andb_false_iff.
  destruct rest as [|x [|y rest]]; simpl.
  - by left.
  - right. apply bool_decide_eq_false_2. congruence.
  - by left.
Qed.

(** Any other path under [/todos/] with DELETE runs [Delete] on its first
    segment. *)
Lemma handleTodoByID_delete e s w r id rest :
  strings.Split (strings.TrimPrefix (Path r) "/todos/") "/" = id :: rest →
  id ≠ "" → rest ≠ ["toggle"] → Method r = MethodDelete →
  handleTodoByID e s w r
  = (serving (Delete e (store s) id).1,
     match (Delete e (store s) id).2 with
     | Some err => writeErr w StatusNotFound err
     | None => WriteHeader w StatusNoContent
     end).
Proof.
  intros Hparts Hid Hrest Hm. unfold handleTodoByID. rewrite Hparts.
  rewrite (not_toggle_path id rest Hrest).
  cbn [length lookup list_lookup default orb].
  rewrite (bool_decide_eq_false_2 (S (length rest) = 0%nat)) by done.
  rewrite (bool_decide_eq_false_2 (Some id = Some "")) by congruence.
  simpl. rewrite decide_True by done. unfold app.Delete, store. simpl.
  by destruct (Delete e (app.repo (svc s)) id) as [m' [err|]].
Qed.

(** ... and with any other method answers 405. *)
Lemma handleTodoByID_method e s w r id rest :
  strings.Split (strings.TrimPrefix (Path r) "/todos/") "/" = id :: rest →
  id ≠ "" → rest ≠ ["toggle"] → Method r ≠ MethodDelete →
  handleTodoByID e s w r
  = (s, writeErr (Header_Set w "Allow" "DELETE, POST") StatusMethodNotAllowed
          "method not allowed").
Proof.
  intros Hparts Hid Hrest Hm. unfold handleTodoByID. rewrite Hparts.
  rewrite (not_toggle_path id rest Hrest).
  cbn [length lookup list_lookup default orb].
  rewrite (bool_decide_eq_false_2 (S (length rest) = 0%nat)) by done.
  rewrite (bool_decide_eq_false_2 (Some id = Some "")) by congruence.
  simpl. by rewrite decide_False.
Qed.

(** C2.  A title that is empty once trimmed makes [Create] fail with
    "title is required" (the validation error) and leaves the store as it
    was; a POST to [/todos] that decodes to such a title is answered 400 with
    that error, the store untouched.  The empty title and the title of three
    spaces are two such titles. *)
Theorem blank_title_rejected (Decode : string → option string)
    e s w (title path body : string) :
  strings.TrimSpace title = "" →
  app.Create e (svc s) title = (svc s, (zeroTodo, Some "title is required")) ∧
  (Decode body = Some title →
   handleTodos Decode e s w (mkRequest MethodPost path body)
   = (s, writeErr w StatusBadRequest "title is required")) ∧
  status (writeErr w StatusBadRequest "title is required") = 400 ∧
  strings.TrimSpace "" = "" ∧ strings.TrimSpace "   " = "".
Proof.
  intros Ht. split_and!; try done.
  - by apply Create_blank.
  - intros Hd. unfold handleTodos. simpl. rewrite Hd.
    rewrite (Create_blank e (svc s) title Ht). by destruct s.
Qed.

Lemma blank_title_rejected_witness :
  strings.TrimSpace "   " = "" ∧
  handleTodos Some sample.e_later (serving sample.one) NewRecorder
    (mkRequest "POST" "/todos" "   ")
  = (serving sample.one, writeErr NewRecorder 400 "title is required").
Proof.
  split; [reflexivity|].
  apply (blank_title_rejected Some sample.e_later (serving sample.one) NewRecorder
           "   " "/todos" "   "); reflexivity.
Defined.

(** C5.  For an id that is not in the store, [Toggle] and [Delete] both fail
    with "todo not found" (the not-found error) and return the store as it
    was.  When the id is a path segment (not empty, no slash),
    [POST /todos/{id}/toggle] and [DELETE /todos/{id}] are answered 404 with
    that error and leave the store untouched. *)
Theorem absent_id_not_found e (m : memRepo) w (id body : string) :
  data m !! id = None →
  Toggle e m id = (m, (zeroTodo, Some "todo not found")) ∧
  Delete e m id = (m, Some "todo not found") ∧
  (id ≠ "" → strings.ContainsByte id "/" = false →
   handleTodoByID e (serving m) w (mkRequest MethodPost ("/todos/" +:+ id +:+ "/toggle") body)
   = (serving m, writeErr w StatusNotFound "todo not found") ∧
   handleTodoByID e (serving m) w (mkRequest MethodDelete ("/todos/" +:+ id) body)
   = (serving m, writeErr w StatusNotFound "todo not found")) ∧
  status (writeErr w StatusNotFound "todo not found") = 404.
Proof.
  intros Hid. split_and!; try done.
  - by apply Toggle_absent.
  - by apply Delete_absent.
  - intros Hne Hseg. split.
    + rewrite (handleTodoByID_toggle e (serving m) w _ id); try done.
      * unfold store. simpl. by rewrite (Toggle_absent e m id Hid).
      * exact (parts_suffix id "toggle" Hseg).
    + rewrite (handleTodoByID_delete e (serving m) w _ id []); try done.
      * unfold store. simpl. by rewrite (Delete_absent e m id Hid).
      * exact (parts_item id Hseg).
Qed.

Lemma absent_id_not_found_witness :
  data sample.one !! "17-3" = None ∧
  handleTodoByID sample.e_later (serving sample.one) NewRecorder
    (mkRequest "DELETE" "/todos/17-3" "")
  = (serving sample.one, writeErr NewRecorder 404 "todo not found").
Proof.
  assert (Hid : data sample.one !! "17-3" = None) by (vm_compute; reflexivity).
  split; [exact Hid|].
  pose proof (absent_id_not_found sample.e_later sample.one NewRecorder "17-3" "" Hid)
    as (_ & _ & Hh & _).
  apply Hh; [discriminate|reflexivity].
Defined.

(** C9.  [DELETE /todos/{id}/{suffix}] with any suffix other than "toggle"
    is handled exactly as [DELETE /todos/{id}]: the suffix is ignored and
    [Delete] runs on the id, answering 204 when the id was in the store and
    404 when it was not. *)
Theorem delete_ignores_suffix e s w (id suffix body : string) :
  id ≠ "" → strings.ContainsByte id "/" = false → suffix ≠ "toggle" →
  let r := mkRequest MethodDelete ("/todos/" +:+ id +:+ "/" +:+ suffix) body in
  handleTodoByID e s w r
  = handleTodoByID e s w (mkRequest MethodDelete ("/todos/" +:+ id) body) ∧
  store (handleTodoByID e s w r).1 = (Delete e (store s) id).1 ∧
  status (handleTodoByID e s w r).2
  = match data (store s) !! id with
    | Some _ => StatusNoContent
    | None => StatusNotFound
    end.
Proof.
  intros Hne Hseg Hsuffix r.
  assert (Hr : handleTodoByID e s w r
    = (serving (Delete e (store s) id).1,
       match (Delete e (store s) id).2 with
       | Some err => writeErr w StatusNotFound err
       | None => WriteHeader w StatusNoContent
       end)).
  { apply (handleTodoByID_delete e s w r id (strings.Split suffix "/")); try done.
    - exact (parts_suffix id suffix Hseg).
    - intros Hs. by apply Split_singleton in Hs. }
  split_and!.
  - rewrite Hr. symmetry.
    apply (handleTodoByID_delete e s w _ id []); try done.
    exact (parts_item id Hseg).
  - by rewrite Hr.
  - rewrite Hr. simpl. unfold Delete. by destruct (data (store s) !! id).
Qed.

Lemma delete_ignores_suffix_witness :
  store (handleTodoByID sample.e_later (serving sample.two) NewRecorder
           (mkRequest "DELETE" "/todos/1700000000-42/junk" "")).1
  = (Delete sample.e_later sample.two "1700000000-42").1 ∧
  status (handleTodoByID sample.e_later (serving sample.two) NewRecorder
            (mkRequest "DELETE" "/todos/1700000000-42/junk" "")).2 = 204.
Proof.
  pose proof (delete_ignores_suffix sample.e_later (serving sample.two) NewRecorder
                "1700000000-42" "junk" "") as H.
  destruct H as (_ & Hstore & Hstatus); [discriminate|reflexivity|discriminate|].
  split; [exact Hstore|]. etrans; [exact Hstatus|]. vm_compute. reflexivity.
Defined.

(** C8, as the code has it.  On [/todos] every method other than GET and
    POST is answered 405 with [Allow: GET, POST]; on [/todos/{id}] every
    method other than DELETE is answered 405 with [Allow: DELETE, POST]; on
    [/todos/{id}/toggle] every method other than POST is answered 405 with
    [Allow: POST].  None of these touches the store.  The health handler does
    not look at the method: it answers 200 to every request and sets no
    [Allow] header. *)
Theorem method_not_allowed (Decode : string → option string)
    e s w (method id body : string) :
  (method ≠ MethodGet → method ≠ MethodPost →
   let res := handleTodos Decode e s w (mkRequest method "/todos" body) in
   res.1 = s ∧ status res.2 = 405 ∧ Header res.2 !! "Allow" = Some "GET, POST") ∧
  (id ≠ "" → strings.ContainsByte id "/" = false → method ≠ MethodDelete →
   let res := handleTodoByID e s w (mkRequest method ("/todos/" +:+ id) body) in
   res.1 = s ∧ status res.2 = 405 ∧ Header res.2 !! "Allow" = Some "DELETE, POST") ∧
  (id ≠ "" → strings.ContainsByte id "/" = false → method ≠ MethodPost →
   let res := handleTodoByID e s w (mkRequest method ("/todos/" +:+ id +:+ "/toggle") body) in
   res.1 = s ∧ status res.2 = 405 ∧ Header res.2 !! "Allow" = Some "POST") ∧
  (let res := handleHealth e s w (mkRequest method "/health" body) in
   res.1 = s ∧ status res.2 = 200 ∧ Header res.2 !! "Allow" = Header w !! "Allow").
Proof.
  split_and!.
  - intros Hget Hpost. unfold handleTodos. simpl.
    rewrite !decide_False by done. simpl. split_and!; [done|done|].
    rewrite lookup_insert_ne by done. apply lookup_insert_eq.
  - intros Hne Hseg Hm.
    rewrite (handleTodoByID_method e s w _ id []); try done;
      [|exact (parts_item id Hseg)].
    simpl. split_and!; [done|done|].
    rewrite lookup_insert_ne by done. apply lookup_insert_eq.
  - intros Hne Hseg Hm.
    rewrite (handleTodoByID_toggle_method e s w _ id); try done;
      [|exact (parts_suffix id "toggle" Hseg)].
    simpl. split_and!; [done|done|].
    rewrite lookup_insert_ne by done. apply lookup_insert_eq.
  - simpl. split_and!; [done|done|]. by rewrite lookup_insert_ne.
Qed.

Lemma method_not_allowed_witness :
  status (handleTodos Some sample.e_later (serving sample.one) NewRecorder
            (mkRequest "PUT" "/todos" "")).2 = 405 ∧
  Header (handleTodoByID sample.e_later (serving sample.one) NewRecorder
            (mkRequest "PUT" "/todos/1700000000-42" "")).2 !! "Allow" = Some "DELETE, POST" ∧
  Header (handleTodoByID sample.e_later (serving sample.one) NewRecorder
            (mkRequest "PUT" "/todos/1700000000-42/toggle" "")).2 !! "Allow" = Some "POST".
Proof.
  pose proof (method_not_allowed Some sample.e_later (serving sample.one) NewRecorder
                "PUT" "1700000000-42" "") as (Htodos & Hitem & Htoggle & _).
  destruct Htodos as (_ & Hstatus & _); [discriminate|discriminate|].
  destruct Hitem as (_ & _ & Hallow); [discriminate|reflexivity|discriminate|].
  destruct Htoggle as (_ & _ & Hallow'); [discriminate|reflexivity|discriminate|].
  split; [exact Hstatus|]. split; [exact Hallow|exact Hallow'].
Defined.

(** C8, as stated, fails on [/health]: a DELETE there is not a supported
    operation, yet the answer is 200 and carries no [Allow] header. *)
Lemma health_answers_every_method :
  let res := handleHealth sample.e_later (serving sample.one) NewRecorder
               (mkRequest "DELETE" "/health" "") in
  status res.2 = 200 ∧ status res.2 ≠ 405 ∧ Header res.2 !! "Allow" = None.
Proof. split; [reflexivity|]. split; [discriminate|]. vm_compute. reflexivity. Qed.

(** C10.  [Create] and [List] of the in-memory repository return a nil error
    for every input and every store, so a GET on [/todos] never takes the 500
    branch: it answers 200 with the listing and leaves the store as it was. *)
Theorem memRepo_List_never_fails (Decode : string → option string)
    e (m : memRepo) w (title path body : string) :
  (Create e m title).2.2 = None ∧
  (List e m).2 = None ∧
  handleTodos Decode e (serving m) w (mkRequest MethodGet path body)
  = (serving m, writeJSON w StatusOK (JTodos (List e m).1)) ∧
  status (handleTodos Decode e (serving m) w (mkRequest MethodGet path body)).2 = 200 ∧
  status (handleTodos Decode e (serving m) w (mkRequest MethodGet path body)).2
  ≠ StatusInternalServerError.
Proof. split_and!; try done. Qed.

(** The 500 branch is there for repositories that can fail. *)
Example broken_repo_500 :
  status (handleTodos (port := brokenRepo) Some sample.e_later
            (mkServer (app.mkService ())) NewRecorder (mkRequest "GET" "/todos" "")).2 = 500.
Proof. reflexivity. Qed.

(** The scenario of the service's life, end to end: create "Buy milk" (201,
    not done), list (one entry), toggle it (200, done), delete it (204), list
    (empty), delete it again (404).  The request body stands for its decoded
    title. *)
Example end_to_end :
  let s0 := serving New in
  let r1 := handleTodos Some sample.e_milk s0 NewRecorder (mkRequest "POST" "/todos" "Buy milk") in
  let r2 := handleTodos Some sample.e_range r1.1 NewRecorder (mkRequest "GET" "/todos" "") in
  let r3 := handleTodoByID sample.e_later r2.1 NewRecorder
              (mkRequest "POST" "/todos/1700000000-42/toggle" "") in
  let r4 := handleTodoByID sample.e_later r3.1 NewRecorder
              (mkRequest "DELETE" "/todos/1700000000-42" "") in
  let r5 := handleTodos Some (mkEnv 1700000004 0 5000 []) r4.1 NewRecorder
              (mkRequest "GET" "/todos" "") in
  let r6 := handleTodoByID sample.e_later r5.1 NewRecorder
              (mkRequest "DELETE" "/todos/1700000000-42" "") in
  (status r1.2 = 201 ∧ body r1.2 = [JTodo sample.t_milk]) ∧
  (status r2.2 = 200 ∧ body r2.2 = [JTodos [sample.t_milk]]) ∧
  (status r3.2 = 200 ∧
   body r3.2 = [JTodo (mkTodo "1700000000-42" "Buy milk" true 1000 4000)]) ∧
  (status r4.2 = 204 ∧ body r4.2 = []) ∧
  (status r5.2 = 200 ∧ body r5.2 = [JTodos []]) ∧
  (status r6.2 = 404 ∧ body r6.2 = [JObject [("error", "todo not found")]]).
Proof. vm_compute. repeat split. Qed.

End handlers.

(** * Further properties of the code *)

(** ** Histories of the in-memory repository *)

Section histories.
Import memory.

Lemma run_from_snoc (m : memRepo) (cs : list (Env * call)) (c : Env * call) :
  run_from m (cs ++ [c]) = step (run_from m cs) c.
Proof. unfold run_from. by rewrite foldl_app. Qed.

(** X1.  Ids are unique for the lifetime of the store: after any sequence of
    [Create], [Toggle] and [Delete] calls, made in any worlds, every record
    sits under its own id, and every listing shows pairwise distinct ids. *)
Theorem ids_unique_in_every_history (cs : list (Env * call)) (e : Env) :
  keyed_by_ID (run cs) ∧
  NoDup (ID <$> values (run cs)) ∧
  NoDup (ID <$> (List e (run cs)).1).
Proof.
  pose proof (keyed_by_ID_run cs) as Hk.
  split_and!; [done|by apply values_ids_NoDup|].
  rewrite (List_perm e (run cs)). by apply values_ids_NoDup.
Qed.

(** X2.  [Create] followed by [Delete] of the id it returned gives back the
    store as it was, provided the id was free; [Delete] succeeds either
    way. *)
Theorem Create_then_Delete (e e' : Env) (m : memRepo) (title : string) :
  data m !! ID (Create e m title).2.1 = None →
  Delete e' (Create e m title).1 (ID (Create e m title).2.1) = (m, None).
Proof.
  simpl. intros Hfree. unfold Delete. simpl.
  rewrite lookup_insert_eq. rewrite delete_insert_eq.
  rewrite delete_id by done. by destruct m.
Qed.

Lemma Create_then_Delete_witness :
  Delete sample.e_later sample.two "1700000001-7" = (sample.one, None).
Proof.
  apply (Create_then_Delete sample.e_eggs sample.e_later sample.one "Buy eggs").
  vm_compute. reflexivity.
Defined.

Lemma clock_reads_snoc (cs : list (Env * call)) (c : Env * call) :
  clock_reads (cs ++ [c]) = clock_reads cs ++ [time_now c.1].
Proof. unfold clock_reads. by rewrite map_app. Qed.

(** While the clock does not go back, every stored record was created no
    later than it was last updated, and was last updated at one of the clock
    reads of the history. *)
Lemma stamped_by_history (cs : list (Env * call)) :
  StronglySorted Z.le (clock_reads cs) →
  ∀ k t, data (run_from New cs) !! k = Some t →
         CreatedAt t ≤ UpdatedAt t ∧ UpdatedAt t ∈ clock_reads cs.
Proof.
  induction cs as [|c cs IH] using rev_ind; intros Hclock k t.
  { unfold run_from. simpl. by rewrite lookup_empty. }
  rewrite clock_reads_snoc in Hclock |- *.
  apply StronglySorted_app in Hclock as (Hlater & Hcs & _).
  specialize (IH Hcs). rewrite run_from_snoc.
  set (m := run_from New cs) in *.
  assert (Hold : ∀ k t, data m !! k = Some t →
            CreatedAt t ≤ UpdatedAt t ∧ UpdatedAt t ∈ clock_reads cs ++ [time_now c.1]).
  { intros k' t' Hk'. destruct (IH k' t' Hk') as [Hle Hin].
    split; [done|]. apply elem_of_app. by left. }
  destruct c as [e [title|id|id]]; unfold step; simpl.
  - rewrite lookup_insert. case_decide; [|by apply Hold].
    intros [= <-]. simpl. split; [lia|]. apply elem_of_app. right. by left.
  - unfold Toggle. destruct (data m !! id) as [t0|] eqn:Hid; simpl; [|by apply Hold].
    rewrite lookup_insert. case_decide; [|by apply Hold].
    intros [= <-]. simpl. split; [|apply elem_of_app; right; by left].
    destruct (IH id t0 Hid) as [Hle Hin].
    pose proof (Hlater (UpdatedAt t0) (time_now e) Hin) as Hnow.
    etrans; [exact Hle|]. apply Hnow. by left.
  - unfold Delete. destruct (data m !! id) as [t0|] eqn:Hid; simpl; [|by apply Hold].
    rewrite lookup_delete. case_decide; [done|by apply Hold].
Qed.

(** X3.  As long as the clock reads of a history never go back, every record
    in the store has [CreatedAt <= UpdatedAt]. *)
Theorem created_no_later_than_updated (cs : list (Env * call)) (k : string) (t : Todo) :
  StronglySorted Z.le (clock_reads cs) →
  data (run cs) !! k = Some t →
  CreatedAt t ≤ UpdatedAt t.
Proof. intros Hclock Hk. by apply (stamped_by_history cs Hclock k t). Qed.

Lemma created_no_later_than_updated_witness :
  data (run [(sample.e_milk, CallCreate "Buy milk");
             (sample.e_later, CallToggle "1700000000-42")]) !! "1700000000-42"
  = Some (mkTodo "1700000000-42" "Buy milk" true 1000 4000) ∧
  1000 ≤ 4000.
Proof.
  assert (Hk : data (run [(sample.e_milk, CallCreate "Buy milk");
                          (sample.e_later, CallToggle "1700000000-42")]) !! "1700000000-42"
               = Some (mkTodo "1700000000-42" "Buy milk" true 1000 4000))
    by (vm_compute; reflexivity).
  split; [exact Hk|].
  apply (λ Hclock, created_no_later_than_updated _ _ _ Hclock Hk).
  unfold clock_reads. simpl. repeat constructor. lia.
Defined.

Lemma toggles_of_snoc (id : string) (cs : list (Env * call)) (c : Env * call) :
  toggles_of id (cs ++ [c])
  = (toggles_of id cs + if decide (c.2 = CallToggle id) then 1 else 0)%nat.
Proof.
  unfold toggles_of. rewrite filter_app, length_app. f_equal.
  rewrite filter_cons, filter_nil. by case_decide.
Qed.

(** X4.  Through any history that neither deletes an id nor builds it anew,
    the record under that id stays in the store with the id, title and
    [CreatedAt] it had, and its [Done] flag is the original one flipped once
    per toggle of the id: it has changed exactly when the id was toggled an
    odd number of times. *)
Theorem toggles_flip_by_parity (m : memRepo) (cs : list (Env * call))
    (id : string) (t : Todo) :
  data m !! id = Some t →
  Forall (spares id) cs →
  ∃ t', data (run_from m cs) !! id = Some t' ∧
        ID t' = ID t ∧ Title t' = Title t ∧ CreatedAt t' = CreatedAt t ∧
        Done t' = xorb (Done t) (Nat.odd (toggles_of id cs)).
Proof.
  intros Hid. induction cs as [|c cs IH] using rev_ind; intros Hcs.
  { exists t. split_and!; try done.
    unfold toggles_of. rewrite filter_nil.
    change (Nat.odd (length [])) with false. by rewrite xorb_false_r. }
  rewrite Forall_app, Forall_singleton in Hcs. destruct Hcs as [Hcs Hc].
  destruct (IH Hcs) as (t' & Ht' & HID & HTitle & HCreated & HDone).
  rewrite run_from_snoc, toggles_of_snoc.
  set (m' := run_from m cs) in *.
  destruct c as [e cl]. change ((e, cl).2) with cl.
  destruct (decide (cl = CallToggle id)) as [->|Hcl].
  - unfold step, Toggle. simpl. rewrite Ht'. simpl. rewrite lookup_insert_eq.
    eexists. split; [done|]. simpl. split_and!; try done.
    rewrite Nat.add_1_r, Nat.odd_succ, <- Nat.negb_odd, HDone.
    by destruct (Done t), (Nat.odd (toggles_of id cs)).
  - exists t'. rewrite Nat.add_0_r. split_and!; try done.
    destruct cl as [title|id'|id']; unfold step, spares in *; simpl in *.
    + by rewrite lookup_insert_ne.
    + assert (id' ≠ id) by congruence.
      unfold Toggle. destruct (data m' !! id'); simpl; [by rewrite lookup_insert_ne|done].
    + unfold Delete. destruct (data m' !! id'); simpl; [by rewrite lookup_delete_ne|done].
Qed.

Lemma toggles_flip_by_parity_witness :
  ∃ t', data (run_from sample.two
                [(sample.e_later, CallToggle "1700000000-42");
                 (sample.e_later, CallDelete "1700000001-7");
                 (sample.e_later, CallToggle "1700000000-42");
                 (sample.e_later, CallToggle "1700000000-42")]) !! "1700000000-42" = Some t' ∧
        Title t' = "Buy milk" ∧ Done t' = true.
Proof.
  destruct (toggles_flip_by_parity sample.two
              [(sample.e_later, CallToggle "1700000000-42");
               (sample.e_later, CallDelete "1700000001-7");
               (sample.e_later, CallToggle "1700000000-42");
               (sample.e_later, CallToggle "1700000000-42")]
              "1700000000-42" sample.t_milk)
    as (t' & Ht' & _ & HTitle & _ & HDone).
  - vm_compute. reflexivity.
  - repeat constructor; unfold spares; simpl; discriminate.
  - exists t'. split; [exact Ht'|]. split; [exact HTitle|exact HDone].
Defined.

End histories.

(** ** Listings and the order of the walk *)

Section listings.
Import memory.

Lemma select_least_first (rest : list Todo) (x : Todo) :
  Forall (created_le x) rest → select x rest = (x, rest).
Proof.
  revert x. induction rest as [|y rest IH]; intros x Hx; simpl; [done|].
  apply Forall_cons in Hx as [Hy Hrest]. unfold created_le in Hy.
  unfold Before. rewrite (proj2 (Z.ltb_ge _ _)) by done.
  by rewrite (IH x Hrest).
Qed.

Lemma selection_sorted_id (n : nat) : ∀ l,
  StronglySorted created_le l → selection n l = l.
Proof.
  induction n as [|n IH]; intros [|x rest] Hl; simpl; try done.
  apply StronglySorted_cons in Hl as [Hx Hrest].
  rewrite (select_least_first rest x Hx). by rewrite (IH rest Hrest).
Qed.

Lemma sort_sorted_id (l : list Todo) :
  StronglySorted created_le l → sort_by_CreatedAt l = l.
Proof. intros Hl. rewrite sort_by_CreatedAt_selection. by apply selection_sorted_id. Qed.

(** X5.  The sort of [List] leaves a slice that is already in ascending
    order of [CreatedAt] exactly as it is, ties included; sorting twice is
    sorting once. *)
Theorem sort_keeps_sorted (out : list Todo) :
  (StronglySorted created_le out → sort_by_CreatedAt out = out) ∧
  sort_by_CreatedAt (sort_by_CreatedAt out) = sort_by_CreatedAt out.
Proof. split; [apply sort_sorted_id|]. apply sort_sorted_id, sort_by_CreatedAt_sorted. Qed.

Lemma sort_keeps_sorted_witness :
  sort_by_CreatedAt [sample.t_milk; sample.t_eggs] = [sample.t_milk; sample.t_eggs].
Proof.
  apply (proj1 (sort_keeps_sorted [sample.t_milk; sample.t_eggs])).
  repeat constructor; unfold created_le; simpl; lia.
Defined.

(** X6.  When no two records of the store were created at the same instant,
    the listing does not depend on the order in which [range] walks the map:
    every call of [List] returns the same sequence. *)
Theorem List_order_irrelevant (e1 e2 : Env) (m : memRepo) :
  (∀ k1 k2 t1 t2, data m !! k1 = Some t1 → data m !! k2 = Some t2 →
                  CreatedAt t1 = CreatedAt t2 → k1 = k2) →
  List e1 m = List e2 m.
Proof.
  intros Hdistinct. unfold List. f_equal.
  apply (StronglySorted_unique_strong created_le).
  - intros x1 x2 Hx1 Hx2 H12 H21.
    rewrite sort_by_CreatedAt_perm, range_perm in Hx1.
    rewrite sort_by_CreatedAt_perm, range_perm in Hx2.
    apply elem_of_values in Hx1 as [k1 Hk1]. apply elem_of_values in Hx2 as [k2 Hk2].
    assert (k1 = k2) as -> by (apply (Hdistinct k1 k2 x1 x2); unfold created_le in *; [done..|lia]).
    congruence.
  - apply sort_by_CreatedAt_sorted.
  - apply sort_by_CreatedAt_sorted.
  - by rewrite !sort_by_CreatedAt_perm, !range_perm.
Qed.

Lemma List_order_irrelevant_witness :
  List sample.e_range sample.two = List sample.e_later sample.two.
Proof.
  apply (List_order_irrelevant sample.e_range sample.e_later sample.two).
  intros k1 k2 t1 t2 H1 H2.
  assert (Hin : ∀ k t, data sample.two !! k = Some t →
            (k, t) = ("1700000001-7", sample.t_eggs) ∨ (k, t) = ("1700000000-42", sample.t_milk)).
  { intros k t Hk. apply elem_of_map_to_list in Hk.
    change (map_to_list (data sample.two))
      with [("1700000001-7", sample.t_eggs); ("1700000000-42", sample.t_milk)] in Hk.
    apply elem_of_cons in Hk as [Hk|Hk]; [by left|].
    apply list_elem_of_singleton in Hk. by right. }
  destruct (Hin k1 t1 H1) as [[= -> ->]|[= -> ->]],
           (Hin k2 t2 H2) as [[= -> ->]|[= -> ->]]; simpl; intros; (done || lia).
Defined.



End listings.

(** ** What ids look like *)

Section id_format.
Import memory strings.

Lemma all_bytes_app (P : ascii → bool) (a b : string) :
  all_bytes P (a +:+ b) = all_bytes P a && all_bytes P b.
Proof.
  induction a as [|c a IH]; [done|].
  change (all_bytes P (String c (a +:+ b)) = all_bytes P (String c a) && all_bytes P b).
  simpl. rewrite IH. by rewrite andb_assoc.
Qed.

Lemma all_bytes_impl (P Q : ascii → bool) (s : string) :
  (∀ c, P c = true → Q c = true) → all_bytes P s = true → all_bytes Q s = true.
Proof.
  intros HPQ. induction s as [|c s IH]; simpl; [done|].
  intros [Hc Hs]%andb_prop. by rewrite (HPQ c Hc), IH.
Qed.

Lemma all_bytes_not_contained (P : ascii → bool) (s : string) (c : ascii) :
  P c = false → all_bytes P s = true → ContainsByte s c = false.
Proof.
  intros Hc. induction s as [|c' s IH]; simpl; [done|].
  intros [Hc' Hs]%andb_prop. case_decide; [congruence|by apply IH].
Qed.

Lemma pretty_N_char_digit (x : N) : is_digit (pretty_N_char x) = true.
Proof. unfold pretty_N_char. by repeat case_match. Qed.

Lemma pretty_N_go_digits (x : N) : ∀ s,
  all_bytes is_digit s = true → all_bytes is_digit (pretty_N_go x s) = true.
Proof.
  induction (N.lt_wf_0 x) as [x _ IH]; intros s Hs.
  assert (x = 0 ∨ 0 < x)%N as [->|Hx] by lia; [by rewrite pretty_N_go_0|].
  rewrite pretty_N_go_step by done. apply IH; [by apply N.div_lt|].
  simpl. by rewrite pretty_N_char_digit.
Qed.

Lemma pretty_N_go_not_empty (x : N) : ∀ s, s ≠ "" → pretty_N_go x s ≠ "".
Proof.
  induction (N.lt_wf_0 x) as [x _ IH]; intros s Hs.
  assert (x = 0 ∨ 0 < x)%N as [->|Hx] by lia; [by rewrite pretty_N_go_0|].
  rewrite pretty_N_go_step by done. apply IH; [by apply N.div_lt|done].
Qed.

Lemma pretty_N_digits (x : N) : all_bytes is_digit (pretty x) = true ∧ pretty x ≠ "".
Proof.
  unfold pretty, pretty_N. case_decide; [done|]. split.
  - by apply pretty_N_go_digits.
  - rewrite pretty_N_go_step by lia. by apply pretty_N_go_not_empty.
Qed.

(** [%d] of a number that is not negative is a non-empty run of digits. *)
Lemma pretty_Z_digits (z : Z) :
  0 ≤ z → all_bytes is_digit (pretty z) = true ∧ pretty z ≠ "".
Proof.
  destruct z as [|p|p]; [done| |lia]. intros _.
  apply (pretty_N_digits (N.pos p)).
Qed.

(** [%d] of any number is made of digits and dashes. *)
Lemma pretty_Z_id_bytes (z : Z) : all_bytes is_id_byte (pretty z) = true ∧ pretty z ≠ "".
Proof.
  assert (Hd : ∀ c, is_digit c = true → is_id_byte c = true)
    by (intros c Hc; unfold is_id_byte; by rewrite Hc).
  destruct z as [|p|p]; [done| |].
  - destruct (pretty_N_digits (N.pos p)) as [Hp Hne].
    split; [by apply (all_bytes_impl is_digit)|done].
  - destruct (pretty_N_digits (N.pos p)) as [Hp Hne]. split; [|done].
    change (all_bytes is_id_byte (String "-" (pretty (N.pos p))) = true).
    simpl. by apply (all_bytes_impl is_digit).
Qed.

Lemma cut_at_last_dash (x1 : string) : ∀ (x2 d1 d2 : string),
  all_bytes is_digit d1 = true → all_bytes is_digit d2 = true →
  x1 +:+ String "-" d1 = x2 +:+ String "-" d2 → x1 = x2 ∧ d1 = d2.
Proof.
  assert (Hdash : ∀ x d, all_bytes is_digit (x +:+ String "-" d) = true → False).
  { intros x d. rewrite all_bytes_app. simpl. by intros [_ [=]]%andb_prop. }
  induction x1 as [|c x1 IH]; intros [|c' x2] d1 d2 Hd1 Hd2.
  - by intros [= ->].
  - change ("" +:+ String "-" d1) with (String "-" d1).
    change (String c' x2 +:+ String "-" d2) with (String c' (x2 +:+ String "-" d2)).
    intros [= _ ->]. by destruct (Hdash x2 d2).
  - change ("" +:+ String "-" d2) with (String "-" d2).
    change (String c x1 +:+ String "-" d1) with (String c (x1 +:+ String "-" d1)).
    intros [= _ <-]. by destruct (Hdash x1 d1).
  - change (String c x1 +:+ String "-" d1) with (String c (x1 +:+ String "-" d1)).
    change (String c' x2 +:+ String "-" d2) with (String c' (x2 +:+ String "-" d2)).
    intros [= -> Heq]. destruct (IH x2 d1 d2 Hd1 Hd2 Heq) as [-> ->]. done.
Qed.

Lemma Sprintf_d_d_same (t1 r1 t2 r2 : Z) :
  0 ≤ r1 → 0 ≤ r2 →
  Sprintf_d_d t1 r1 = Sprintf_d_d t2 r2 → t1 = t2 ∧ r1 = r2.
Proof.
  intros Hr1 Hr2 Heq. unfold Sprintf_d_d in Heq.
  destruct (pretty_Z_digits r1 Hr1) as [Hd1 _], (pretty_Z_digits r2 Hr2) as [Hd2 _].
  destruct (cut_at_last_dash _ _ _ _ Hd1 Hd2 Heq) as [Ht Hr].
  split; by apply (inj pretty).
Qed.

(** X8.  The id built from a second and a draw that is not negative (as
    [rand.Intn] draws are) tells both back: two ids are equal exactly when
    they were built from the same second and the same draw. *)
Theorem Sprintf_d_d_inj (t1 r1 t2 r2 : Z) :
  0 ≤ r1 → 0 ≤ r2 →
  Sprintf_d_d t1 r1 = Sprintf_d_d t2 r2 ↔ t1 = t2 ∧ r1 = r2.
Proof.
  intros Hr1 Hr2. split; [by apply Sprintf_d_d_same|]. by intros [-> ->].
Qed.

Lemma Sprintf_d_d_inj_witness :
  Sprintf_d_d 1700000000 42 = "1700000000-42" ∧
  Sprintf_d_d 170000000 42 ≠ Sprintf_d_d 1700000000 42.
Proof.
  split; [vm_compute; reflexivity|].
  intros Heq. apply Sprintf_d_d_inj in Heq as [Ht _]; [discriminate|lia|lia].
Defined.

Lemma Sprintf_d_d_segment (timestamp random : Z) :
  Sprintf_d_d timestamp random ≠ "" ∧
  all_bytes is_id_byte (Sprintf_d_d timestamp random) = true ∧
  ContainsByte (Sprintf_d_d timestamp random) "/" = false.
Proof.
  unfold Sprintf_d_d.
  destruct (pretty_Z_id_bytes timestamp) as [Ht Hne], (pretty_Z_id_bytes random) as [Hr _].
  assert (Hall : all_bytes is_id_byte (pretty timestamp +:+ "-" +:+ pretty random) = true).
  { rewrite all_bytes_app, Ht. exact Hr. }
  split_and!; [|done|by apply (all_bytes_not_contained is_id_byte)].
  destruct (pretty timestamp); [done|]. discriminate.
Qed.

(** X9.  Every id that [Create] builds is a path segment: it is not empty and
    is made of digits and dashes only, so it holds no slash, whatever the
    clock and the draw are. *)
Theorem created_ids_are_segments (e : Env) (m : memRepo) (title : string) :
  let id := ID (Create e m title).2.1 in
  id ≠ "" ∧ all_bytes is_id_byte id = true ∧ ContainsByte id "/" = false.
Proof. apply Sprintf_d_d_segment. Qed.

(** Every key of the store is the id built by some [Create] of the
    history. *)
Lemma keys_from_creates (cs : list (Env * call)) (k : string) :
  is_Some (data (run cs) !! k) →
  ∃ c title, c ∈ cs ∧ c.2 = CallCreate title ∧
             k = Sprintf_d_d (unix_now c.1) (rand_intn c.1).
Proof.
  change (run cs) with (run_from New cs).
  induction cs as [|c cs IH] using rev_ind.
  { unfold run_from. simpl. rewrite lookup_empty. by intros [? [=]]. }
  rewrite run_from_snoc. set (m := run_from New cs) in *.
  assert (Hold : is_Some (data m !! k) →
            ∃ c' title, c' ∈ cs ++ [c] ∧ c'.2 = CallCreate title ∧
                        k = Sprintf_d_d (unix_now c'.1) (rand_intn c'.1)).
  { intros Hk. destruct (IH Hk) as (c' & title & Hin & Hc' & ->).
    exists c', title. split; [|done]. apply elem_of_app. by left. }
  destruct c as [e [title|id|id]]; unfold step; simpl.
  - rewrite lookup_insert. case_decide as Hk; [|done].
    intros _. exists (e, CallCreate title), title.
    split; [apply elem_of_app; right; by left|done].
  - unfold Toggle. destruct (data m !! id) as [t0|] eqn:Hid; simpl; [|done].
    rewrite lookup_insert. case_decide as Hk; [|done].
    intros _. apply Hold. subst k. by rewrite Hid.
  - unfold Delete. destruct (data m !! id) as [t0|] eqn:Hid; simpl; [|done].
    rewrite lookup_delete. case_decide; [by intros [? [=]]|done].
Qed.

Lemma fresh_pair_free (cs : list (Env * call)) (e : Env) (title : string) :
  0 ≤ rand_intn e →
  (∀ c title', c ∈ cs → c.2 = CallCreate title' →
               0 ≤ rand_intn c.1 ∧ id_pair c.1 ≠ id_pair e) →
  data (run cs) !! ID (Create e (run cs) title).2.1 = None.
Proof.
  intros He Hcs. apply eq_None_not_Some. intros Hk.
  apply keys_from_creates in Hk as (c & title' & Hin & Hc & Heq).
  destruct (Hcs c title' Hin Hc) as [Hr Hne]. simpl in Heq.
  apply Sprintf_d_d_same in Heq as [Ht Hd]; [|done..].
  apply Hne. unfold id_pair. congruence.
Qed.

(** X10.  [Create] overwrites nothing unless its second and draw were used
    before: when no earlier [Create] of the history read the same second and
    drew the same number (draws not negative), the id it builds is free and
    the store grows by one record. *)
Theorem Create_fresh_pair_adds (cs : list (Env * call)) (e : Env) (title : string) :
  0 ≤ rand_intn e →
  (∀ c title', c ∈ cs → c.2 = CallCreate title' →
               0 ≤ rand_intn c.1 ∧ id_pair c.1 ≠ id_pair e) →
  data (run cs) !! ID (Create e (run cs) title).2.1 = None ∧
  size (data (Create e (run cs) title).1) = S (size (data (run cs))).
Proof.
  intros He Hcs.
  pose proof (fresh_pair_free cs e title He Hcs) as Hfree.
  split; [done|]. by apply Create_fresh_size.
Qed.

Lemma Create_fresh_pair_adds_witness :
  size (data (Create sample.e_eggs (run [(sample.e_milk, CallCreate "Buy milk")]) "Buy eggs").1)
  = 2%nat.
Proof.
  destruct (Create_fresh_pair_adds [(sample.e_milk, CallCreate "Buy milk")]
              sample.e_eggs "Buy eggs") as [_ ->]; [simpl; lia| |reflexivity].
  intros c title' Hin _. apply list_elem_of_singleton in Hin as ->.
  split; [simpl; lia|discriminate].
Defined.

Lemma creates_snoc (es : list (Env * string)) (et : Env * string) :
  creates (es ++ [et]) = creates es ++ [(et.1, CallCreate et.2)].
Proof. unfold creates. by rewrite map_app. Qed.

(** X11.  N calls of [Create] on an empty store whose seconds and draws are
    pairwise different (draws not negative) leave N records: every listing
    has N entries, with N distinct ids. *)
Theorem distinct_pairs_distinct_records (es : list (Env * string)) (e : Env) :
  NoDup (map (λ et, id_pair et.1) es) →
  Forall (λ et, 0 ≤ rand_intn et.1) es →
  size (data (run (creates es))) = length es ∧
  length (List e (run (creates es))).1 = length es ∧
  NoDup (ID <$> (List e (run (creates es))).1).
Proof.
  intros Hpairs Hdraws.
  assert (Hsize : size (data (run (creates es))) = length es).
  { clear e. induction es as [|et es IH] using rev_ind; [done|].
    rewrite map_app in Hpairs. apply NoDup_app in Hpairs as (Hes & Hnew & _).
    apply Forall_app in Hdraws as [Hdraws Het].
    rewrite Forall_singleton in Het.
    rewrite creates_snoc. change (run (creates es ++ [(et.1, CallCreate et.2)]))
      with (run_from New (creates es ++ [(et.1, CallCreate et.2)])).
    rewrite run_from_snoc. change (run_from New (creates es)) with (run (creates es)).
    unfold step. simpl.
    assert (Hgrow : size (data (Create et.1 (run (creates es)) et.2).1)
                    = S (size (data (run (creates es))))).
    { apply Create_fresh_size, fresh_pair_free; [done|].
      intros c title' Hin _. unfold creates in Hin.
      apply list_elem_of_fmap in Hin as (et' & -> & Hin'). simpl.
      split; [by apply (proj1 (Forall_forall _ _) Hdraws)|].
      intros Heq. apply (Hnew (id_pair et'.1)).
      - apply list_elem_of_fmap. by exists et'.
      - rewrite Heq. simpl. by left. }
    simpl in Hgrow. rewrite Hgrow, (IH Hes Hdraws), length_app. simpl. lia. }
  split; [done|].
  pose proof (List_perm e (run (creates es))) as Hp. split.
  - rewrite Hp. unfold values. by rewrite length_fmap, length_map_to_list.
  - rewrite Hp. apply values_ids_NoDup, keyed_by_ID_run.
Qed.

Lemma distinct_pairs_distinct_records_witness :
  length (List sample.e_later
            (run (creates [(sample.e_milk, "Buy milk"); (sample.e_eggs, "Buy eggs")]))).1
  = 2%nat.
Proof.
  apply (distinct_pairs_distinct_records
           [(sample.e_milk, "Buy milk"); (sample.e_eggs, "Buy eggs")] sample.e_later).
  - apply (bool_decide_unpack _). vm_compute. exact I.
  - repeat constructor; simpl; lia.
Defined.

End id_format.

(** ** Titles as the use-case layer stores them *)

Section titles.
Import memory strings.

Lemma string_app_cons (c : ascii) (x y : string) : String c x +:+ y = String c (x +:+ y).
Proof. done. Qed.

Lemma string_app_assoc (x y z : string) : (x +:+ y) +:+ z = x +:+ (y +:+ z).
Proof. induction x as [|c x IH]; [done|]. rewrite !string_app_cons. by f_equal. Qed.

Lemma string_app_nil_r (x : string) : x +:+ "" = x.
Proof. induction x as [|c x IH]; [done|]. rewrite string_app_cons. by f_equal. Qed.

Lemma rev_app_acc (x acc : string) : String.rev_app x acc = String.rev x +:+ acc.
Proof.
  unfold String.rev. revert acc. induction x as [|c x IH]; intros acc; simpl; [done|].
  rewrite (IH (String c acc)), (IH (String c "")). by rewrite string_app_assoc.
Qed.

Lemma rev_app_app (a b acc : string) :
  String.rev_app (a +:+ b) acc = String.rev_app b (String.rev_app a acc).
Proof.
  revert acc. induction a as [|d a IH]; intros acc; [done|].
  rewrite string_app_cons. simpl. apply IH.
Qed.

Lemma rev_app_distr (x y : string) : String.rev (x +:+ y) = String.rev y +:+ String.rev x.
Proof. unfold String.rev at 1. by rewrite rev_app_app, rev_app_acc. Qed.

Lemma CutPrefix_Some (prefix s rest : string) :
  CutPrefix s prefix = Some rest → s = prefix +:+ rest.
Proof.
  revert s. induction prefix as [|p prefix IH]; intros s; simpl.
  - by intros [= ->].
  - destruct s as [|c s]; [done|]. case_decide as Hpc; [|done].
    intros Hcut. rewrite string_app_cons, <- (IH s Hcut). by rewrite Hpc.
Qed.

Lemma cut_rune_Some (runes : list string) (s rest : string) :
  cut_rune runes s = Some rest → ∃ r, r ∈ runes ∧ s = r +:+ rest.
Proof.
  induction runes as [|r runes IH]; simpl; [done|].
  destruct (CutPrefix s r) as [rest'|] eqn:Hcut.
  - intros [= ->]. exists r. split; [by left|by apply CutPrefix_Some].
  - intros Hrest. destruct (IH Hrest) as (r' & Hin & Hs).
    exists r'. split; [by right|done].
Qed.

(** What starts with a rune still does when something is appended. *)
Lemma cut_rune_app (runes : list string) (s q : string) :
  is_Some (cut_rune runes s) → is_Some (cut_rune runes (s +:+ q)).
Proof.
  induction runes as [|r runes IH]; simpl; [done|].
  destruct (CutPrefix s r) as [rest|] eqn:Hcut.
  - intros _. apply CutPrefix_Some in Hcut as ->.
    by rewrite string_app_assoc, CutPrefix_app.
  - intros Hs. destruct (CutPrefix (s +:+ q) r); [done|by apply IH].
Qed.

Lemma trim_left_fixed (runes : list string) (n : nat) (s : string) :
  cut_rune runes s = None → trim_left n runes s = s.
Proof. intros Hs. destruct n; simpl; [done|]. by rewrite Hs. Qed.

Lemma trim_left_suffix (runes : list string) (n : nat) : ∀ s,
  ∃ p, s = p +:+ trim_left n runes s.
Proof.
  induction n as [|n IH]; intros s; simpl; [by exists ""|].
  destruct (cut_rune runes s) as [rest|] eqn:Hcut; [|by exists ""].
  apply cut_rune_Some in Hcut as (r & _ & ->).
  destruct (IH rest) as [p Hp]. exists (r +:+ p).
  rewrite string_app_assoc. by f_equal.
Qed.

(** What [TrimRightSpace] returns is the start of its argument. *)
Lemma TrimRightSpace_prefix (s : string) : ∃ q, s = TrimRightSpace s +:+ q.
Proof.
  unfold TrimRightSpace.
  destruct (trim_left_suffix (map String.rev space_runes) (String.length s) (String.rev s))
    as [p Hp].
  exists (String.rev p).
  rewrite <- rev_app_distr, <- Hp. by rewrite rev_involutive.
Qed.

(** A trimmed title starts and ends with no white space, so trimming it
    again changes nothing. *)
Lemma TrimSpace_idemp (s : string) : TrimSpace (TrimSpace s) = TrimSpace s.
Proof.
  unfold TrimSpace at 1. set (b := TrimSpace s).
  assert (Hleft : cut_rune space_runes b = None).
  { apply eq_None_not_Some. intros Hb.
    destruct (TrimRightSpace_prefix (TrimLeftSpace s)) as [q Hq].
    apply (cut_rune_app _ _ q) in Hb. unfold b, TrimSpace in Hb.
    rewrite <- Hq, TrimLeftSpace_done in Hb. by destruct Hb. }
  assert (Hright : cut_rune (map String.rev space_runes) (String.rev b) = None)
    by apply TrimRightSpace_done.
  unfold TrimLeftSpace. rewrite (trim_left_fixed _ _ b Hleft).
  unfold TrimRightSpace. rewrite (trim_left_fixed _ _ _ Hright).
  apply rev_involutive.
Qed.

Lemma serve_run_snoc (cs : list (Env * call)) (c : Env * call) :
  serve_run (cs ++ [c]) = serve_step (serve_run cs) c.
Proof. unfold serve_run. by rewrite foldl_app. Qed.

(** X12.  Whatever requests were served, every title in the store is in
    trimmed form and not empty: it has no white space at either end. *)
Theorem stored_titles_are_trimmed (cs : list (Env * call)) (k : string) (t : Todo) :
  data (app.repo (serve_run cs)) !! k = Some t →
  Title t ≠ "" ∧ TrimSpace (Title t) = Title t.
Proof.
  revert k t. induction cs as [|c cs IH] using rev_ind; intros k t.
  { unfold serve_run. simpl. by rewrite lookup_empty. }
  rewrite serve_run_snoc. set (s := serve_run cs) in *.
  destruct c as [e [title|id|id]]; unfold serve_step; simpl.
  - unfold app.Create. case_decide as Hblank; simpl; [by apply IH|].
    rewrite lookup_insert. case_decide; [|by apply IH].
    intros [= <-]. simpl. split; [done|apply TrimSpace_idemp].
  - unfold app.Toggle. simpl. unfold Toggle.
    destruct (data (app.repo s) !! id) as [t0|] eqn:Hid; simpl; [|by apply IH].
    rewrite lookup_insert. case_decide; [|by apply IH].
    intros [= <-]. simpl. by apply (IH id).
  - unfold app.Delete. simpl. unfold Delete.
    destruct (data (app.repo s) !! id) as [t0|] eqn:Hid; simpl; [|by apply IH].
    rewrite lookup_delete. case_decide; [done|by apply IH].
Qed.

Lemma stored_titles_are_trimmed_witness :
  data (app.repo (serve_run [(sample.e_milk, CallCreate "  Buy milk ");
                             (sample.e_eggs, CallCreate "   ")])) !! "1700000000-42"
  = Some sample.t_milk ∧
  TrimSpace (Title sample.t_milk) = Title sample.t_milk.
Proof.
  assert (Hk : data (app.repo (serve_run [(sample.e_milk, CallCreate "  Buy milk ");
                                          (sample.e_eggs, CallCreate "   ")])) !! "1700000000-42"
               = Some sample.t_milk) by (vm_compute; reflexivity).
  split; [exact Hk|]. exact (proj2 (stored_titles_are_trimmed _ _ _ Hk)).
Defined.

(** X13.  Trimming a title before sending it changes nothing: [Create]
    answers a title and its trimmed form alike, in result and in store. *)
Theorem Create_ignores_outer_space (e : Env) (s : app.TodoService memRepo) (title : string) :
  app.Create e s (TrimSpace title) = app.Create e s title.
Proof. unfold app.Create. by rewrite TrimSpace_idemp. Qed.

End titles.

(** ** What the handlers answer, request by request *)

Section answers.
Import memory http.

Implicit Types (e : Env) (s : Server memRepo) (w : ResponseWriter) (r : Request).

Lemma Split_leading_sep (rest : string) (sep : ascii) :
  strings.Split (String sep rest) sep = "" :: strings.Split rest sep.
Proof. simpl. by rewrite decide_True. Qed.

Lemma handleTodoByID_missing e s w r (rest : list string) :
  strings.Split (strings.TrimPrefix (Path r) "/todos/") "/" = "" :: rest →
  handleTodoByID e s w r = (s, writeErr w StatusBadRequest "missing id").
Proof.
  intros Hparts. unfold handleTodoByID. rewrite Hparts.
  cbn [lookup list_lookup].
  rewrite (bool_decide_eq_true_2 (Some "" = Some "")) by done.
  by rewrite orb_true_r.
Qed.

(** The five ways [handleTodoByID] can answer. *)
Lemma handleTodoByID_shape e s w r :
  handleTodoByID e s w r = (s, writeErr w StatusBadRequest "missing id") ∨
  handleTodoByID e s w r
    = (s, writeErr (Header_Set w "Allow" "POST") StatusMethodNotAllowed "method not allowed") ∨
  handleTodoByID e s w r
    = (s, writeErr (Header_Set w "Allow" "DELETE, POST") StatusMethodNotAllowed
            "method not allowed") ∨
  (∃ id, id ≠ "" ∧ Method r = MethodPost ∧
     handleTodoByID e s w r
     = (serving (Toggle e (store s) id).1,
        match (Toggle e (store s) id).2.2 with
        | Some err => writeErr w StatusNotFound err
        | None => writeJSON w StatusOK (JTodo (Toggle e (store s) id).2.1)
        end)) ∨
  (∃ id, id ≠ "" ∧ Method r = MethodDelete ∧
     handleTodoByID e s w r
     = (serving (Delete e (store s) id).1,
        match (Delete e (store s) id).2 with
        | Some err => writeErr w StatusNotFound err
        | None => WriteHeader w StatusNoContent
        end)).
Proof.
  destruct (strings.Split (strings.TrimPrefix (Path r) "/todos/") "/") as [|id rest] eqn:Hparts;
    [by apply Split_not_nil in Hparts|].
  destruct (decide (id = "")) as [->|Hid].
  { left. by apply (handleTodoByID_missing e s w r rest). }
  destruct (decide (rest = ["toggle"])) as [->|Hrest].
  - destruct (decide (Method r = MethodPost)) as [Hm|Hm].
    + right; right; right; left. exists id. split_and!; try done.
      by apply handleTodoByID_toggle.
    + right; left. by apply (handleTodoByID_toggle_method e s w r id).
  - destruct (decide (Method r = MethodDelete)) as [Hm|Hm].
    + right; right; right; right. exists id. split_and!; try done.
      by apply (handleTodoByID_delete e s w r id rest).
    + right; right; left. by apply (handleTodoByID_method e s w r id rest).
Qed.

(** The five ways [handleTodos] can answer. *)
Lemma handleTodos_shape (Decode : string → option string) e s w r :
  handleTodos Decode e s w r = (s, writeJSON w StatusOK (JTodos (List e (store s)).1)) ∨
  handleTodos Decode e s w r = (s, writeErr w StatusBadRequest "invalid JSON body") ∨
  handleTodos Decode e s w r = (s, writeErr w StatusBadRequest "title is required") ∨
  handleTodos Decode e s w r
    = (s, writeErr (Header_Set w "Allow" "GET, POST") StatusMethodNotAllowed
            "method not allowed") ∨
  (∃ title, Method r = MethodPost ∧ Decode (Body r) = Some title ∧
            strings.TrimSpace title ≠ "" ∧
     handleTodos Decode e s w r
     = (serving (Create e (store s) (strings.TrimSpace title)).1,
        writeJSON w StatusCreated (JTodo (Create e (store s) (strings.TrimSpace title)).2.1))).
Proof.
  unfold handleTodos.
  destruct (decide (Method r = MethodGet)) as [Hget|Hget].
  { left. rewrite List_service. by destruct s. }
  destruct (decide (Method r = MethodPost)) as [Hpost|Hpost]; [|by right; right; right; left].
  destruct (Decode (Body r)) as [title|] eqn:Hd; [|by right; left].
  destruct (decide (strings.TrimSpace title = "")) as [Hblank|Htitle].
  - right; right; left. rewrite (Create_blank e (svc s) title Hblank). by destruct s.
  - right; right; right; right. exists title. split_and!; try done.
    by rewrite (Create_titled e (svc s) title Htitle).
Qed.

(** X14.  A path with nothing where the id should be is turned away with 400
    "missing id" whatever the method is, DELETE and POST included, and the
    store is not touched: this holds for [/todos/] itself and for every path
    that goes on with a second slash. *)
Theorem missing_id_is_bad_request e s w (method rest body : string) :
  handleTodoByID e s w (mkRequest method "/todos/" body)
  = (s, writeErr w StatusBadRequest "missing id") ∧
  handleTodoByID e s w (mkRequest method ("/todos//" +:+ rest) body)
  = (s, writeErr w StatusBadRequest "missing id") ∧
  status (writeErr w StatusBadRequest "missing id") = 400.
Proof.
  split_and!; [| |done].
  - by apply (handleTodoByID_missing e s w _ []).
  - apply (handleTodoByID_missing e s w _ (strings.Split rest "/")).
    change (Path (mkRequest method ("/todos//" +:+ rest) body))
      with ("/todos/" +:+ String "/" rest).
    by rewrite TrimPrefix_app, Split_leading_sep.
Qed.

Lemma serving_store s : serving (store s) = s.
Proof. by destruct s as [[m]]. Qed.

Lemma Toggle_error_unchanged e (m : memRepo) (id : string) (err : error) :
  (Toggle e m id).2.2 = Some err → Toggle e m id = (m, (zeroTodo, Some "todo not found")).
Proof. unfold Toggle. by destruct (data m !! id). Qed.

Lemma Delete_error_unchanged e (m : memRepo) (id : string) (err : error) :
  (Delete e m id).2 = Some err → Delete e m id = (m, Some "todo not found").
Proof. unfold Delete. by destruct (data m !! id). Qed.

(** X15.  A request that is answered with an error status (400 or above) has
    not changed the store, on [/todos] and under [/todos/] alike: the
    handlers never leave a change behind a failure. *)
Theorem failed_requests_change_nothing (Decode : string → option string) e s w r :
  (400 ≤ status (handleTodos Decode e s w r).2 → (handleTodos Decode e s w r).1 = s) ∧
  (400 ≤ status (handleTodoByID e s w r).2 → (handleTodoByID e s w r).1 = s).
Proof.
  split.
  - destruct (handleTodos_shape Decode e s w r)
      as [H|[H|[H|[H|(title & _ & _ & _ & H)]]]]; rewrite H; simpl; done.
  - destruct (handleTodoByID_shape e s w r)
      as [H|[H|[H|[(id & _ & _ & H)|(id & _ & _ & H)]]]]; rewrite H; simpl; try done.
    + destruct (Toggle e (store s) id).2.2 as [err|] eqn:Herr.
      * intros _. rewrite (Toggle_error_unchanged _ _ _ _ Herr). apply serving_store.
      * simpl. unfold StatusOK. lia.
    + destruct (Delete e (store s) id).2 as [err|] eqn:Herr.
      * intros _. rewrite (Delete_error_unchanged _ _ _ _ Herr). apply serving_store.
      * simpl. unfold StatusNoContent. lia.
Qed.

Lemma failed_requests_change_nothing_witness :
  status (handleTodoByID sample.e_later (serving sample.two) NewRecorder
            (mkRequest "POST" "/todos/17-3/toggle" "")).2 = 404 ∧
  (handleTodoByID sample.e_later (serving sample.two) NewRecorder
     (mkRequest "POST" "/todos/17-3/toggle" "")).1 = serving sample.two.
Proof.
  assert (Hstatus : status (handleTodoByID sample.e_later (serving sample.two) NewRecorder
            (mkRequest "POST" "/todos/17-3/toggle" "")).2 = 404) by (vm_compute; reflexivity).
  split; [exact Hstatus|].
  apply (failed_requests_change_nothing Some). rewrite Hstatus. lia.
Defined.

(** X16.  Over the in-memory repository the handlers answer with a fixed set
    of status codes: [/todos] with 200, 201, 400 or 405, the paths under
    [/todos/] with 200, 204, 400, 404 or 405, [/health] with 200.  None of
    them ever answers 500. *)
Theorem handlers_status_codes (Decode : string → option string) e s w r :
  status (handleTodos Decode e s w r).2 ∈ [200; 201; 400; 405] ∧
  status (handleTodoByID e s w r).2 ∈ [200; 204; 400; 404; 405] ∧
  status (handleHealth e s w r).2 = 200 ∧
  status (handleTodos Decode e s w r).2 ≠ StatusInternalServerError ∧
  status (handleTodoByID e s w r).2 ≠ StatusInternalServerError.
Proof.
  assert (H1 : status (handleTodos Decode e s w r).2 ∈ [200; 201; 400; 405]).
  { destruct (handleTodos_shape Decode e s w r)
      as [H|[H|[H|[H|(title & _ & _ & _ & H)]]]]; rewrite H; simpl;
      rewrite !elem_of_cons; auto 6. }
  assert (H2 : status (handleTodoByID e s w r).2 ∈ [200; 204; 400; 404; 405]).
  { destruct (handleTodoByID_shape e s w r)
      as [H|[H|[H|[(id & _ & _ & H)|(id & _ & _ & H)]]]]; rewrite H; simpl;
      try (rewrite !elem_of_cons; by auto 6).
    - destruct (Toggle e (store s) id).2.2; simpl; rewrite !elem_of_cons; auto 6.
    - destruct (Delete e (store s) id).2; simpl; rewrite !elem_of_cons; auto 6. }
  split_and!; try done.
  - intros H500. rewrite H500 in H1. rewrite !elem_of_cons, elem_of_nil in H1.
    unfold StatusInternalServerError in H1. lia.
  - intros H500. rewrite H500 in H2. rewrite !elem_of_cons, elem_of_nil in H2.
    unfold StatusInternalServerError in H2. lia.
Qed.

(** X17.  Every answer with an error status carries exactly one JSON object
    of the form [{"error": message}], appended to the body, and the JSON
    content type. *)
Theorem error_answers_carry_a_message (Decode : string → option string) e s w r :
  (400 ≤ status (handleTodos Decode e s w r).2 →
   ∃ msg, body (handleTodos Decode e s w r).2 = body w ++ [JObject [("error", msg)]] ∧
          Header (handleTodos Decode e s w r).2 !! "Content-Type" = Some "application/json") ∧
  (400 ≤ status (handleTodoByID e s w r).2 →
   ∃ msg, body (handleTodoByID e s w r).2 = body w ++ [JObject [("error", msg)]] ∧
          Header (handleTodoByID e s w r).2 !! "Content-Type" = Some "application/json").
Proof.
  assert (Herr : ∀ w' code msg,
            body w' = body w →
            ∃ msg', body (writeErr w' code msg) = body w ++ [JObject [("error", msg')]] ∧
                    Header (writeErr w' code msg) !! "Content-Type" = Some "application/json").
  { intros w' code msg Hb. exists msg. simpl. rewrite Hb. split; [done|].
    apply lookup_insert_eq. }
  split.
  - destruct (handleTodos_shape Decode e s w r)
      as [H|[H|[H|[H|(title & _ & _ & _ & H)]]]]; rewrite H; intros Hs;
      try (by apply Herr); simpl in Hs; unfold StatusOK, StatusCreated in Hs; lia.
  - destruct (handleTodoByID_shape e s w r)
      as [H|[H|[H|[(id & _ & _ & H)|(id & _ & _ & H)]]]]; rewrite H;
      try (by intros _; apply Herr).
    + cbn [snd]. destruct (Toggle e (store s) id).2.2; [by intros _; apply Herr|].
      simpl. unfold StatusOK. lia.
    + cbn [snd]. destruct (Delete e (store s) id).2; [by intros _; apply Herr|].
      simpl. unfold StatusNoContent. lia.
Qed.

Lemma error_answers_carry_a_message_witness :
  ∃ msg, body (handleTodos Some sample.e_later (serving sample.one) NewRecorder
                 (mkRequest "POST" "/todos" "   ")).2 = [JObject [("error", msg)]].
Proof.
  destruct (error_answers_carry_a_message Some sample.e_later (serving sample.one) NewRecorder
              (mkRequest "POST" "/todos" "   ")) as [H _].
  destruct H as (msg & Hbody & _); [vm_compute; discriminate|].
  exists msg. exact Hbody.
Defined.

Lemma handlers_header_frame (Decode : string → option string) e s w r (key : string) :
  key ≠ "Content-Type" → key ≠ "Allow" →
  Header (handleHealth e s w r).2 !! key = Header w !! key ∧
  Header (handleTodos Decode e s w r).2 !! key = Header w !! key ∧
  Header (handleTodoByID e s w r).2 !! key = Header w !! key.
Proof.
  assert (HJ : ∀ w' code v k, k ≠ "Content-Type" →
            Header (writeJSON w' code v) !! k = Header w' !! k).
  { intros w' code v k Hk. simpl. by rewrite lookup_insert_ne. }
  assert (HE : ∀ w' code msg k, k ≠ "Content-Type" →
            Header (writeErr w' code msg) !! k = Header w' !! k).
  { intros w' code msg k Hk. by apply HJ. }
  assert (HA : ∀ allow k, k ≠ "Allow" →
            Header (Header_Set w "Allow" allow) !! k = Header w !! k).
  { intros allow k Hk. simpl. by rewrite lookup_insert_ne. }
  intros Hct Hallow. split_and!.
  - by apply HJ.
  - destruct (handleTodos_shape Decode e s w r)
      as [H|[H|[H|[H|(title & _ & _ & _ & H)]]]]; rewrite H; cbn [snd];
      rewrite ?HE, ?HJ, ?HA by done; done.
  - destruct (handleTodoByID_shape e s w r)
      as [H|[H|[H|[(id & _ & _ & H)|(id & _ & _ & H)]]]]; rewrite H; cbn [snd];
      rewrite ?HE, ?HJ, ?HA by done; try done.
    + destruct (Toggle e (store s) id).2.2; by rewrite ?HE, ?HJ by done.
    + destruct (Delete e (store s) id).2; by rewrite ?HE by done.
Qed.

(** X18.  The handlers write two headers and no other: [Content-Type] and
    [Allow].  Every other header of the response is as the handler found it,
    and [Allow] is written on 405 answers only. *)
Theorem handlers_write_two_headers (Decode : string → option string) e s w r (key : string) :
  (key ≠ "Content-Type" → key ≠ "Allow" →
   Header (handleHealth e s w r).2 !! key = Header w !! key ∧
   Header (handleTodos Decode e s w r).2 !! key = Header w !! key ∧
   Header (handleTodoByID e s w r).2 !! key = Header w !! key) ∧
  (status (handleTodos Decode e s w r).2 ≠ 405 →
   Header (handleTodos Decode e s w r).2 !! "Allow" = Header w !! "Allow") ∧
  (status (handleTodoByID e s w r).2 ≠ 405 →
   Header (handleTodoByID e s w r).2 !! "Allow" = Header w !! "Allow").
Proof.
  assert (HJ : ∀ w' code v k, k ≠ "Content-Type" →
            Header (writeJSON w' code v) !! k = Header w' !! k).
  { intros w' code v k Hk. simpl. by rewrite lookup_insert_ne. }
  assert (HE : ∀ w' code msg k, k ≠ "Content-Type" →
            Header (writeErr w' code msg) !! k = Header w' !! k).
  { intros w' code msg k Hk. by apply HJ. }
  split_and!.
  - apply handlers_header_frame.
  - destruct (handleTodos_shape Decode e s w r)
      as [H|[H|[H|[H|(title & _ & _ & _ & H)]]]]; rewrite H; cbn [snd];
      intros Hs; rewrite ?HE, ?HJ by done; done.
  - destruct (handleTodoByID_shape e s w r)
      as [H|[H|[H|[(id & _ & _ & H)|(id & _ & _ & H)]]]]; rewrite H; cbn [snd];
      intros Hs; rewrite ?HE, ?HJ by done; try done; try (by destruct Hs).
    + destruct (Toggle e (store s) id).2.2; by rewrite ?HE, ?HJ by done.
    + destruct (Delete e (store s) id).2; by rewrite ?HE by done.
Qed.

Lemma handlers_write_two_headers_witness :
  Header (handleTodoByID sample.e_later (serving sample.one)
            (Header_Set NewRecorder "Access-Control-Allow-Origin" "*")
            (mkRequest "DELETE" "/todos/1700000000-42" "")).2 !! "Access-Control-Allow-Origin"
  = Some "*".
Proof.
  destruct (handlers_write_two_headers Some sample.e_later (serving sample.one)
              (Header_Set NewRecorder "Access-Control-Allow-Origin" "*")
              (mkRequest "DELETE" "/todos/1700000000-42" "") "Access-Control-Allow-Origin")
    as [H _].
  destruct H as (_ & _ & ->); [discriminate|discriminate|]. reflexivity.
Defined.

(** X19.  [/todos] never removes a record and the paths under [/todos/]
    never add one: after a request to [/todos] every id that was in the store
    still is, and after a request under [/todos/] every id in the store was
    there before.  [/health] leaves the store alone. *)
Theorem handlers_keep_their_side (Decode : string → option string) e s w r (k : string) :
  (is_Some (data (store s) !! k) →
   is_Some (data (store (handleTodos Decode e s w r).1) !! k)) ∧
  (is_Some (data (store (handleTodoByID e s w r).1) !! k) →
   is_Some (data (store s) !! k)) ∧
  (handleHealth e s w r).1 = s.
Proof.
  split_and!; [| |done].
  - destruct (handleTodos_shape Decode e s w r)
      as [H|[H|[H|[H|(title & _ & _ & _ & H)]]]]; rewrite H; try done.
    intros Hk. unfold store. simpl. fold (store s).
    rewrite lookup_insert. by case_decide.
  - destruct (handleTodoByID_shape e s w r)
      as [H|[H|[H|[(id & _ & _ & H)|(id & _ & _ & H)]]]]; rewrite H; try done.
    + unfold store at 1. simpl. unfold Toggle.
      destruct (data (store s) !! id) as [t|] eqn:Hid; simpl; [|done].
      rewrite lookup_insert. case_decide; [by subst; rewrite Hid|done].
    + unfold store at 1. simpl. unfold Delete.
      destruct (data (store s) !! id) as [t|] eqn:Hid; simpl; [|done].
      rewrite lookup_delete. case_decide; [by intros [? [=]]|done].
Qed.

Lemma handlers_keep_their_side_witness :
  is_Some (data (store (handleTodos Some sample.e_eggs (serving sample.one) NewRecorder
                          (mkRequest "POST" "/todos" "Buy eggs")).1) !! "1700000000-42").
Proof.
  apply (handlers_keep_their_side Some sample.e_eggs (serving sample.one) NewRecorder
           (mkRequest "POST" "/todos" "Buy eggs") "1700000000-42").
  vm_compute. eauto.
Defined.

Lemma Toggle_present e (m : memRepo) (id : string) (t : Todo) :
  data m !! id = Some t →
  Toggle e m id
  = (mkRepo (<[id := mkTodo (ID t) (Title t) (negb (Done t)) (CreatedAt t) (time_now e)]>
               (data m)),
     (mkTodo (ID t) (Title t) (negb (Done t)) (CreatedAt t) (time_now e), None)).
Proof. intros Hid. unfold Toggle. by rewrite Hid. Qed.

(** X20.  A task made by [POST /todos] can be reached under the id the answer
    carries: the POST answers 201 with the new task, not done; a POST to
    [/todos/{id}/toggle] then answers 200 with the task done and freshly
    stamped; a DELETE of [/todos/{id}] then answers 204 and the id is gone
    from the store.  This holds for every title that is not blank and every
    clock and draw. *)
Theorem created_task_is_reachable (Decode : string → option string)
    (e e1 e2 : Env) s w (path sent sent1 sent2 title : string) :
  Decode sent = Some title →
  strings.TrimSpace title ≠ "" →
  let t := (Create e (store s) (strings.TrimSpace title)).2.1 in
  let r1 := handleTodos Decode e s w (mkRequest MethodPost path sent) in
  let r2 := handleTodoByID e1 r1.1 w
              (mkRequest MethodPost ("/todos/" +:+ ID t +:+ "/toggle") sent1) in
  let r3 := handleTodoByID e2 r2.1 w (mkRequest MethodDelete ("/todos/" +:+ ID t) sent2) in
  (status r1.2 = 201 ∧ body r1.2 = body w ++ [JTodo t] ∧ Done t = false ∧
   data (store r1.1) !! ID t = Some t) ∧
  (status r2.2 = 200 ∧
   body r2.2 = body w ++ [JTodo (mkTodo (ID t) (Title t) true (CreatedAt t) (time_now e1))]) ∧
  (status r3.2 = 204 ∧ body r3.2 = body w ∧ data (store r3.1) !! ID t = None).
Proof.
  intros Hd Htitle t r1 r2 r3.
  destruct (Sprintf_d_d_segment (unix_now e) (rand_intn e)) as (Hne & _ & Hseg).
  change (Sprintf_d_d (unix_now e) (rand_intn e)) with (ID t) in Hne, Hseg.
  assert (H1 : r1 = (serving (Create e (store s) (strings.TrimSpace title)).1,
                     writeJSON w StatusCreated (JTodo t))).
  { unfold r1, handleTodos. simpl. rewrite Hd.
    by rewrite (Create_titled e (svc s) title Htitle). }
  set (m1 := store r1.1) in *.
  assert (Ht : data m1 !! ID t = Some t).
  { unfold m1. rewrite H1. unfold store. simpl. apply lookup_insert_eq. }
  set (t2 := mkTodo (ID t) (Title t) (negb (Done t)) (CreatedAt t) (time_now e1)).
  assert (H2 : r2 = (serving (mkRepo (<[ID t := t2]> (data m1))), writeJSON w StatusOK (JTodo t2))).
  { unfold r2. rewrite (handleTodoByID_toggle e1 r1.1 w _ (ID t)); try done.
    - fold m1. by rewrite (Toggle_present e1 m1 (ID t) t Ht).
    - exact (parts_suffix (ID t) "toggle" Hseg). }
  assert (H3 : r3 = (serving (mkRepo (delete (ID t) (<[ID t := t2]> (data m1)))),
                     WriteHeader w StatusNoContent)).
  { unfold r3. rewrite (handleTodoByID_delete e2 r2.1 w _ (ID t) []); try done.
    - rewrite H2. unfold store. simpl.
      rewrite (Delete_present e2 _ (ID t) t2); [done|]. simpl. apply lookup_insert_eq.
    - exact (parts_item (ID t) Hseg). }
  split_and!; try done.
  - by rewrite H1.
  - by rewrite H1.
  - by rewrite H2.
  - by rewrite H2.
  - by rewrite H3.
  - by rewrite H3.
  - rewrite H3. unfold store. simpl. apply lookup_delete_eq.
Qed.

Lemma created_task_is_reachable_witness :
  let r1 := handleTodos Some sample.e_milk (serving New) NewRecorder
              (mkRequest "POST" "/todos" " Buy milk ") in
  status (handleTodoByID sample.e_later r1.1 NewRecorder
            (mkRequest "POST" "/todos/1700000000-42/toggle" "")).2 = 200.
Proof.
  intros r1.
  pose proof (created_task_is_reachable Some sample.e_milk sample.e_later sample.e_later
                (serving New) NewRecorder "/todos" " Buy milk " "" "" " Buy milk ") as H.
  destruct H as (_ & (Hstatus & _) & _); [reflexivity|vm_compute; discriminate|].
  exact Hstatus.
Defined.

(** X21.  In front of any of the three handlers, [corsMiddleware] answers an
    OPTIONS request itself: 200, nothing written to the body, the handler not
    run and the store as it was, whatever the path.  Every answer that passes
    through it, from the middleware or from a handler, carries the three
    cross-origin headers as the middleware set them. *)
Theorem cors_in_front_of_the_handlers (Decode : string → option string)
    e s w r (next : Handler memRepo) :
  (Method r = "OPTIONS" →
   (corsMiddleware next e s w r).1 = s ∧
   status (corsMiddleware next e s w r).2 = 200 ∧
   body (corsMiddleware next e s w r).2 = body w) ∧
  (next = handleHealth ∨ next = handleTodos Decode ∨ next = handleTodoByID →
   Header (corsMiddleware next e s w r).2 !! "Access-Control-Allow-Origin" = Some "*" ∧
   Header (corsMiddleware next e s w r).2 !! "Access-Control-Allow-Methods"
   = Some "GET, POST, PUT, DELETE, OPTIONS" ∧
   Header (corsMiddleware next e s w r).2 !! "Access-Control-Allow-Headers"
   = Some "Content-Type, Authorization, X-Request-Start, X-CSRF-Token").
Proof.
  split.
  - intros Hm. unfold corsMiddleware. by rewrite decide_True.
  - intros Hnext. unfold corsMiddleware.
    set (w' := Header_Set (Header_Set (Header_Set w _ _) _ _) _ _).
    assert (Hw' : Header w' !! "Access-Control-Allow-Origin" = Some "*" ∧
                  Header w' !! "Access-Control-Allow-Methods"
                  = Some "GET, POST, PUT, DELETE, OPTIONS" ∧
                  Header w' !! "Access-Control-Allow-Headers"
                  = Some "Content-Type, Authorization, X-Request-Start, X-CSRF-Token").
    { unfold w'. simpl. split_and!.
      - do 2 (rewrite lookup_insert_ne by done). apply lookup_insert_eq.
      - rewrite lookup_insert_ne by done. apply lookup_insert_eq.
      - apply lookup_insert_eq. }
    case_decide; [done|].
    pose proof (handlers_header_frame Decode e s w' r) as Hframe.
    destruct (Hframe "Access-Control-Allow-Origin") as (Ho1 & Ho2 & Ho3); [done..|].
    destruct (Hframe "Access-Control-Allow-Methods") as (Hm1 & Hm2 & Hm3); [done..|].
    destruct (Hframe "Access-Control-Allow-Headers") as (Hh1 & Hh2 & Hh3); [done..|].
    destruct Hnext as [->|[->| ->]]; by rewrite ?Ho1, ?Ho2, ?Ho3, ?Hm1, ?Hm2, ?Hm3, ?Hh1, ?Hh2, ?Hh3.
Qed.

Lemma cors_in_front_of_the_handlers_witness :
  status (corsMiddleware (handleTodos Some) sample.e_later (serving sample.one) NewRecorder
            (mkRequest "OPTIONS" "/todos" "")).2 = 200 ∧
  status (handleTodos Some sample.e_later (serving sample.one) NewRecorder
            (mkRequest "OPTIONS" "/todos" "")).2 = 405 ∧
  Header (corsMiddleware handleTodoByID sample.e_later (serving sample.one) NewRecorder
            (mkRequest "DELETE" "/todos/17-3" "")).2 !! "Access-Control-Allow-Origin" = Some "*".
Proof.
  split; [|split; [reflexivity|]].
  - apply (cors_in_front_of_the_handlers Some sample.e_later (serving sample.one) NewRecorder
             (mkRequest "OPTIONS" "/todos" "") (handleTodos Some)). reflexivity.
  - apply (cors_in_front_of_the_handlers Some sample.e_later (serving sample.one) NewRecorder
             (mkRequest "DELETE" "/todos/17-3" "") handleTodoByID). auto.
Defined.

End answers.

(** ** The browser side *)

Section browser.
Import frontend.

Implicit Types (b : Browser) (ui : UI) (cfg : RequestConfig) (error : HttpError).

(** The five request interceptors of the default setup, run in order. *)
Lemma default_request_interceptors b cfg ui :
  applyRequestInterceptors httpClient b cfg ui
  = loadingInterceptor b
      (timingInterceptor b (authInterceptor b (contentTypeInterceptor b cfg ui).1 ui).1 ui).1
      (log ui (LogRequest (if decide (method cfg = "") then "GET" else method cfg)
                 (url cfg) (body cfg))).
Proof.
  unfold applyRequestInterceptors, httpClient, setupDefaultInterceptors. simpl.
  unfold contentTypeInterceptor, authInterceptor, timingInterceptor, loggingInterceptor.
  by destruct (truthy (body cfg) && negb (truthy (config_headers cfg !! "Content-Type"))),
              (truthy (auth_token b)).
Qed.

(** The three error interceptors of the default setup: the first one
    rejects, the other two are not run. *)
Lemma default_error_interceptors b error ui :
  applyErrorInterceptors httpClient b error ui = (ThrownHttpError error, request_done ui).
Proof. done. Qed.

(** The three response interceptors of the default setup, run in order. *)
Lemma default_response_interceptors b (response : HttpResponse) ui :
  applyResponseInterceptors httpClient b response ui
  = (response,
     request_done
       (log (timingResponseInterceptor b response ui).2
          (LogResponse (status response) (statusText response) (data response)))).
Proof.
  unfold applyResponseInterceptors, httpClient, setupDefaultInterceptors. simpl.
  unfold timingResponseInterceptor. by destruct (truthy (headers response !! "x-request-start")).
Qed.

(** X22.  With the default setup a failed request runs the first error
    interceptor only.  [loadingErrorInterceptor] counts the request off and
    rejects, which ends the chain: [retryInterceptor] and [errorInterceptor]
    are never run, so nothing is logged, no toast is shown and [globalError]
    stays as it was, although [errorInterceptor] on its own would have set it
    to the message for the error.  The error thrown is the one that came
    in. *)
Theorem error_chain_stops_at_loading b error ui :
  let res := applyErrorInterceptors httpClient b error ui in
  res.1 = ThrownHttpError error ∧
  requestCount res.2 = requestCount ui - 1 ∧
  globalError res.2 = globalError ui ∧
  console res.2 = console ui ∧
  toasts res.2 = toasts ui ∧
  globalError (errorInterceptor b error ui).2 = Some (errorMessage error) ∧
  console (errorInterceptor b error ui).2 = console ui ++ [LogApiError error].
Proof. by rewrite default_error_interceptors. Qed.

(** X23.  Whatever the network does, a request through the default client
    leaves [requestCount] as it found it.  Followed on its own (no other
    request starting or ending in between), a request that starts when no
    other is under way ends with [isLoading] false and [globalError] empty;
    one that starts while others are under way touches neither. *)
Theorem request_counts_itself_off b b' (fetch : RequestConfig → Fetched)
    (target : string) (options : RequestInit) ui :
  let res := request httpClient b fetch b' target options ui in
  requestCount res.2 = requestCount ui ∧
  isLoading res.2 = (if decide (requestCount ui = 0) then false else isLoading ui) ∧
  globalError res.2 = (if decide (requestCount ui = 0) then None else globalError ui) ∧
  toasts res.2 = toasts ui.
Proof.
  unfold request. rewrite default_request_interceptors.
  set (cfg' := (timingInterceptor b _ ui).1).
  set (ui0 := log ui _).
  assert (Hstart : ∀ ui1, ui1 = (loadingInterceptor b cfg' ui0).2 →
            requestCount ui1 = requestCount ui + 1 ∧
            isLoading ui1 = (if decide (requestCount ui = 0) then true else isLoading ui) ∧
            globalError ui1 = (if decide (requestCount ui = 0) then None else globalError ui) ∧
            toasts ui1 = toasts ui).
  { intros ui1 ->. unfold loadingInterceptor, ui0. simpl.
    destruct (decide (requestCount ui = 0)) as [H0|H0].
    - rewrite decide_True by lia. done.
    - rewrite decide_False by lia. done. }
  assert (Hdone : ∀ ui1 ui2,
            requestCount ui2 = requestCount ui1 → isLoading ui2 = isLoading ui1 →
            globalError ui2 = globalError ui1 → toasts ui2 = toasts ui1 →
            ui1 = (loadingInterceptor b cfg' ui0).2 →
            requestCount (request_done ui2) = requestCount ui ∧
            isLoading (request_done ui2)
            = (if decide (requestCount ui = 0) then false else isLoading ui) ∧
            globalError (request_done ui2)
            = (if decide (requestCount ui = 0) then None else globalError ui) ∧
            toasts (request_done ui2) = toasts ui).
  { intros ui1 ui2 Hc Hl Hg Ht Hui1. destruct (Hstart ui1 Hui1) as (Hc1 & Hl1 & Hg1 & Ht1).
    unfold request_done. simpl. rewrite Hc, Hl, Hg, Ht, Hc1, Hl1, Hg1, Ht1.
    split_and!; [lia| |done|done].
    destruct (decide (requestCount ui = 0)) as [H0|H0].
    - by rewrite decide_True by lia.
    - by rewrite decide_False by lia. }
  destruct (loadingInterceptor b cfg' ui0) as [cfg1 ui1] eqn:Hload.
  assert (Hui1 : ui1 = (loadingInterceptor b cfg' ui0).2) by (by rewrite Hload).
  unfold settle. destruct (fetch cfg1) as [response|msg].
  - destruct (parseResponse response) as [d|msg].
    + destruct (negb (ok response)).
      * rewrite default_error_interceptors. simpl. by apply (Hdone ui1).
      * rewrite default_response_interceptors. simpl.
        apply (Hdone ui1); try done; unfold timingResponseInterceptor;
          by destruct (truthy _).
    + rewrite default_error_interceptors. simpl. by apply (Hdone ui1).
  - rewrite default_error_interceptors. simpl. by apply (Hdone ui1).
Qed.

(** What the default client does once [fetch] has come back. *)
Lemma default_settle b' (fetched : Fetched) ui :
  (settle httpClient b' fetched ui).1
  = match fetched with
    | FetchRejects msg => inl (ThrownHttpError (mkHttpError msg None (Some (DErrorObject msg))))
    | FetchResolves response =>
        match parseResponse response with
        | inr msg => inl (ThrownHttpError (mkHttpError msg None (Some (DErrorObject msg))))
        | inl d =>
            if ok response
            then inr (mkHttpResponse d (response_status response)
                        (response_statusText response) (response_headers response))
            else inl (ThrownHttpError
                        (mkHttpError (response_statusText response)
                           (Some (response_status response)) (Some d)))
        end
    end.
Proof.
  unfold settle. destruct fetched as [response|msg]; [|done].
  destruct (parseResponse response) as [d|msg]; [|done].
  destruct (ok response); cbn [negb]; [|done].
  by rewrite default_response_interceptors.
Qed.



(** X25.  The request interceptors of the default setup change headers and
    nothing else: URL, method and body reach [fetch] as [request] built them.
    Every request leaves with an [X-Request-Start] header holding the clock
    of the browser; a request with a body leaves with a [Content-Type]; a
    request made while a token is stored leaves with [Authorization: Bearer]
    and the token; no other header is written. *)
Theorem outgoing_request_headers b cfg ui (key : string) :
  let sent := (applyRequestInterceptors httpClient b cfg ui).1 in
  url sent = url cfg ∧ method sent = method cfg ∧ body sent = body cfg ∧
  config_headers sent !! "X-Request-Start" = Some (pretty (Date_now b)) ∧
  (truthy (body cfg) = true → truthy (config_headers sent !! "Content-Type") = true) ∧
  (truthy (auth_token b) = true →
   config_headers sent !! "Authorization" = Some ("Bearer " +:+ default "" (auth_token b))) ∧
  (key ≠ "X-Request-Start" → key ≠ "Content-Type" → key ≠ "Authorization" →
   config_headers sent !! key = config_headers cfg !! key).
Proof.
  assert (Hload : ∀ c u, (loadingInterceptor b c u).1 = c)
    by (intros c u; unfold loadingInterceptor; by case_decide).
  intros sent. unfold sent. rewrite default_request_interceptors, Hload.
  unfold timingInterceptor, authInterceptor, contentTypeInterceptor.
  destruct (truthy (body cfg)) eqn:Hbody,
           (truthy (config_headers cfg !! "Content-Type")) eqn:Hct,
           (truthy (auth_token b)) eqn:Htoken; simpl;
    (split_and!;
      [done|done|done|apply lookup_insert_eq
      |intros Hb; try discriminate Hb
      |intros Ht; try discriminate Ht
      |intros H1 H2 H3]);
    rewrite ?lookup_insert_ne by done; rewrite ?lookup_insert_eq;
    rewrite ?lookup_insert_ne by done; rewrite ?lookup_insert_eq;
    rewrite ?lookup_insert_ne by done; try done.
Qed.

Lemma outgoing_request_headers_witness :
  let sent := (applyRequestInterceptors httpClient (mkBrowser (Some "s3cr3t") 1700000000000 false)
                 (requestConfig httpClient "/todos" (with_method_body None "POST" (Some "{}")))
                 idle).1 in
  url sent = "http://localhost:8081/todos" ∧
  config_headers sent !! "Authorization" = Some "Bearer s3cr3t" ∧
  truthy (config_headers sent !! "Content-Type") = true.
Proof.
  intros sent.
  destruct (outgoing_request_headers (mkBrowser (Some "s3cr3t") 1700000000000 false)
              (requestConfig httpClient "/todos" (with_method_body None "POST" (Some "{}")))
              idle "Accept") as (Hurl & _ & _ & _ & Hct & Hauth & _).
  split; [exact Hurl|]. split; [apply Hauth; reflexivity|apply Hct; reflexivity].
Defined.

Lemma default_sent_same b cfg ui :
  let sent := (applyRequestInterceptors httpClient b cfg ui).1 in
  url sent = url cfg ∧ method sent = method cfg ∧ body sent = body cfg.
Proof.
  simpl. rewrite default_request_interceptors.
  unfold loadingInterceptor, timingInterceptor, authInterceptor, contentTypeInterceptor.
  by destruct (truthy (body cfg) && negb (truthy (config_headers cfg !! "Content-Type"))),
              (truthy (auth_token b)); simpl; case_decide.
Qed.

(** What [request] asks an unplugged network for. *)
Lemma request_unplugged b b' (target : string) (options : RequestInit) ui :
  failure (request httpClient b unplugged b' target options ui)
  = Some (default "GET" (init_method options) +:+ " " +:+
          (if startsWith target "http" then target
           else "http://localhost:8081" +:+ target)).
Proof.
  unfold failure, request.
  destruct (default_sent_same b (requestConfig httpClient target options) ui)
    as (Hurl & Hmethod & _).
  destruct (applyRequestInterceptors httpClient b _ ui) as [sent ui'].
  simpl in Hurl, Hmethod. rewrite default_settle. unfold unplugged. simpl.
  by rewrite Hurl, Hmethod.
Qed.

(** X26.  The calls of [TodoApiService], followed to the handler.  For an id
    that is a path segment, [toggleTodo] asks for
    [POST /todos/{id}/toggle] and [deleteTodo] for [DELETE /todos/{id}], on
    the server's address; [handleTodoByID] answers them by running [Toggle]
    and [Delete] on that id.  [updateTodo] asks for [PUT /todos/{id}] and
    [getTodo] for [GET /todos/{id}]: the handler answers both with 405 and
    leaves the store alone, whether the id exists or not. *)
Theorem client_calls_meet_the_handlers (e : Env) (s : http.Server memory.memRepo)
    (w : http.ResponseWriter) b b' ui (id sent seen : string) :
  id ≠ "" → strings.ContainsByte id "/" = false →
  (failure (toggleTodo b unplugged b' id ui)
   = Some ("POST http://localhost:8081/todos/" +:+ id +:+ "/toggle") ∧
   http.handleTodoByID e s w (http.mkRequest "POST" ("/todos/" +:+ id +:+ "/toggle") seen)
   = (http.serving (memory.Toggle e (http.store s) id).1,
      match (memory.Toggle e (http.store s) id).2.2 with
      | Some err => http.writeErr w 404 err
      | None => http.writeJSON w 200 (http.JTodo (memory.Toggle e (http.store s) id).2.1)
      end)) ∧
  (failure (deleteTodo b unplugged b' id ui)
   = Some ("DELETE http://localhost:8081/todos/" +:+ id) ∧
   http.handleTodoByID e s w (http.mkRequest "DELETE" ("/todos/" +:+ id) seen)
   = (http.serving (memory.Delete e (http.store s) id).1,
      match (memory.Delete e (http.store s) id).2 with
      | Some err => http.writeErr w 404 err
      | None => http.WriteHeader w 204
      end)) ∧
  (failure (updateTodo b unplugged b' id sent ui)
   = Some ("PUT http://localhost:8081/todos/" +:+ id) ∧
   (http.handleTodoByID e s w (http.mkRequest "PUT" ("/todos/" +:+ id) seen)).1 = s ∧
   http.status (http.handleTodoByID e s w (http.mkRequest "PUT" ("/todos/" +:+ id) seen)).2
   = 405) ∧
  (failure (getTodo b unplugged b' id ui)
   = Some ("GET http://localhost:8081/todos/" +:+ id) ∧
   (http.handleTodoByID e s w (http.mkRequest "GET" ("/todos/" +:+ id) seen)).1 = s ∧
   http.status (http.handleTodoByID e s w (http.mkRequest "GET" ("/todos/" +:+ id) seen)).2
   = 405).
Proof.
  intros Hne Hseg.
  assert (Hasked : ∀ A (f : HttpResponse → A) target options,
            failure (match (request httpClient b unplugged b' target options ui).1 with
                     | inl thrown => inl thrown
                     | inr response => inr (f response)
                     end, (request httpClient b unplugged b' target options ui).2)
            = failure (request httpClient b unplugged b' target options ui)).
  { intros A f target options. unfold failure. simpl.
    by destruct (request httpClient b unplugged b' target options ui).1 as [[?|?]|?]. }
  split_and!.
  - unfold toggleTodo, response_data, post. rewrite Hasked, request_unplugged. done.
  - apply (handleTodoByID_toggle e s w _ id); try done.
    exact (parts_suffix id "toggle" Hseg).
  - unfold deleteTodo, delete. rewrite (Hasked unit (λ _, ())), request_unplugged. done.
  - apply (handleTodoByID_delete e s w _ id []); try done. exact (parts_item id Hseg).
  - unfold updateTodo, response_data, put. rewrite Hasked, request_unplugged. done.
  - rewrite (handleTodoByID_method e s w _ id []); try done. exact (parts_item id Hseg).
  - rewrite (handleTodoByID_method e s w _ id []); try done. exact (parts_item id Hseg).
  - unfold getTodo, response_data, get. rewrite Hasked, request_unplugged. done.
  - rewrite (handleTodoByID_method e s w _ id []); try done. exact (parts_item id Hseg).
  - rewrite (handleTodoByID_method e s w _ id []); try done. exact (parts_item id Hseg).
Qed.

Lemma client_calls_meet_the_handlers_witness :
  failure (updateTodo (mkBrowser None 0 false) unplugged (mkBrowser None 1 false)
             "1700000000-42" "{}" idle)
  = Some "PUT http://localhost:8081/todos/1700000000-42" ∧
  http.status (http.handleTodoByID sample.e_later (http.serving sample.one) http.NewRecorder
                 (http.mkRequest "PUT" "/todos/1700000000-42" "{}")).2 = 405.
Proof.
  destruct (client_calls_meet_the_handlers sample.e_later (http.serving sample.one)
              http.NewRecorder (mkBrowser None 0 false) (mkBrowser None 1 false) idle
              "1700000000-42" "{}" "{}") as (_ & _ & (Hasked & _ & Hstatus) & _);
    [discriminate|reflexivity|].
  split; [exact Hasked|exact Hstatus].
Defined.

End browser.

(** ** The page's list and the store *)

Section page.
Import memory.









End page.
